(** * DG-LAB linkALL: command arbitration and plugin event dispatch

    A shallow embedding of the in-process core of the application:

    - [src/dglab_controller.py]: [ChannelCommand], the cooldown ledger
      [command_sources], [add_command], the dispatcher loop
      [process_commands] and the strength primitives;
    - [src/plugin_system/event.py]: [EventHandler], [Event], [EventManager];
    - [src/plugin_system/plugin.py] and [plugin_manager.py]: the plugin
      life cycle ([enable], [disable], [disable_plugin]).

    Python classes become modules holding a record [t] and the methods.
    Readings of the wall clock ([time.time()]), fresh [uuid4()] strings and
    the outcome of calls into user code ([initialize()], [shutdown()], event
    handlers) are arguments of the functions that consume them.

    Timestamps are Python floats that the code only subtracts and compares;
    they are modelled as rationals with exact arithmetic. *)

From Stdlib Require Import ZArith QArith Lqa Ascii String.
From stdpp Require Import gmap strings list pretty sorting.

Open Scope Z_scope.

(* ===================================================================== *)
(** * Part I: the embedding                                               *)
(* ===================================================================== *)

(** ** Python runtime conventions *)

(** Outcome of a call into code that may raise. *)
Inductive PyResult (T : Type) : Type :=
  | Returned (v : T)
  | Raised.
Arguments Returned {T} v.
Arguments Raised {T}.

(** [x or d] on an optional string: [None] and the empty string are falsy. *)
Definition py_or_str (x : option string) (d : string) : string :=
  match x with
  | Some s => if bool_decide (s = "") then d else s
  | None => d
  end.

(** [x or d] on an optional float: [None] and [0.0] are falsy. *)
Definition py_or_float (x : option Q) (d : Q) : Q :=
  match x with
  | Some t => if Qeq_bool t 0 then d else t
  | None => d
  end.

(** [x < y] on timestamps. *)
Definition Qltb (x y : Q) : bool :=
  Qnum x * Z.pos (Qden y) <? Qnum y * Z.pos (Qden x).

(** [d[k] = v] on an insertion-ordered [dict]: an existing key keeps its
    position, a new key goes last. *)
Fixpoint dict_set {V : Type} (k : string) (v : V) (d : list (string * V))
    : list (string * V) :=
  match d with
  | [] => [(k, v)]
  | (k', v') :: d' =>
      if bool_decide (k' = k) then (k, v) :: d' else (k', v') :: dict_set k v d'
  end.

(** [s.split(sep)[0]]: the characters before the first separator. *)
Fixpoint split_head (sep : ascii) (s : string) : string :=
  match s with
  | EmptyString => EmptyString
  | String c s' =>
      if bool_decide (c = sep) then EmptyString else String c (split_head sep s')
  end.

(** [list.sort()]: a stable sort that compares with [__lt__] only.  Any
    stable sort yields the same list; this is the insertion sort CPython
    runs on short lists. *)
Section list_sort.
Context {T : Type} (lt : T → T → bool).

Fixpoint sort_insert (x : T) (l : list T) : list T :=
  match l with
  | [] => [x]
  | y :: l' => if lt x y then x :: y :: l' else y :: sort_insert x l'
  end.

Definition list_sort (l : list T) : list T :=
  foldl (λ acc x, sort_insert x acc) [] l.
End list_sort.

(** ** [heapq], as used by [asyncio.PriorityQueue]

    [PriorityQueue._put] is [heappush(self._queue, item)] and
    [PriorityQueue._get] is [heappop(self._queue)].  [None] stands for an
    [IndexError]; list stores are always in range when the result is
    [Some]. The loops carry a fuel that bounds their iterations. *)
Section heapq.
Context {T : Type} (lt : T → T → bool).

(** [(pos - 1) >> 1] *)
Definition parent_of (pos : nat) : nat := Nat.shiftr (pos - 1) 1.

Fixpoint _siftdown_loop (fuel : nat) (heap : list T) (newitem : T)
    (startpos pos : nat) : option (list T) :=
  if decide (startpos < pos)%nat then
    match fuel with
    | O => None
    | S fuel' =>
        let parentpos := parent_of pos in
        parent ← heap !! parentpos;
        if lt newitem parent
        then _siftdown_loop fuel' (<[pos := parent]> heap) newitem
               startpos parentpos
        else Some (<[pos := newitem]> heap)
    end
  else Some (<[pos := newitem]> heap).

Definition _siftdown (heap : list T) (startpos pos : nat)
    : option (list T) :=
  newitem ← heap !! pos;
  _siftdown_loop pos heap newitem startpos pos.

Fixpoint _siftup_loop (fuel : nat) (heap : list T) (endpos pos : nat)
    : option (list T * nat) :=
  let childpos := (2 * pos + 1)%nat in
  if decide (childpos < endpos)%nat then
    match fuel with
    | O => None
    | S fuel' =>
        let rightpos := (childpos + 1)%nat in
        childpos' ←
          (if decide (rightpos < endpos)%nat then
             l ← heap !! childpos;
             r ← heap !! rightpos;
             Some (if negb (lt l r) then rightpos else childpos)
           else Some childpos);
        child ← heap !! childpos';
        _siftup_loop fuel' (<[pos := child]> heap) endpos childpos'
    end
  else Some (heap, pos).

Definition _siftup (heap : list T) (pos : nat) : option (list T) :=
  let endpos := length heap in
  let startpos := pos in
  newitem ← heap !! pos;
  '(heap1, pos1) ← _siftup_loop endpos heap endpos pos;
  _siftdown (<[pos1 := newitem]> heap1) startpos pos1.

Definition heappush (heap : list T) (item : T) : option (list T) :=
  let heap1 := heap ++ [item] in
  _siftdown heap1 0 (length heap1 - 1).

Definition heappop (heap : list T) : option (T * list T) :=
  lastelt ← last heap;
  let heap1 := take (length heap - 1) heap in
  match heap1 with
  | [] => Some (lastelt, heap1)
  | returnitem :: _ =>
      heap2 ← _siftup (<[0%nat := lastelt]> heap1) 0;
      Some (returnitem, heap2)
  end.
End heapq.

(** ** [command_types.py] and the [pydglab_ws] enumerations *)

Inductive CommandType : Set :=
  | GUI_COMMAND
  | PANEL_COMMAND
  | INTERACTION_COMMAND
  | TON_COMMAND.

Global Instance CommandType_eq_dec : EqDecision CommandType.
Proof. solve_decision. Defined.

(** [command_type.name] *)
Definition CommandType_name (c : CommandType) : string :=
  match c with
  | GUI_COMMAND => "GUI_COMMAND"
  | PANEL_COMMAND => "PANEL_COMMAND"
  | INTERACTION_COMMAND => "INTERACTION_COMMAND"
  | TON_COMMAND => "TON_COMMAND"
  end.

(** [command_type.value].  The module [command_types.py] that assigns the
    numeric ranks is not part of the sources at hand, so the ranks are an
    interface: every result below holds for any assignment. *)
Class CommandTypeValues := CommandType_value : CommandType → Z.

Inductive Channel : Set := Channel_A | Channel_B.

Global Instance Channel_eq_dec : EqDecision Channel.
Proof. solve_decision. Defined.

Inductive StrengthOperationType : Set :=
  | DECREASE
  | INCREASE
  | SET_TO
  | SET_PULSE_MODE.

Global Instance StrengthOperationType_eq_dec : EqDecision StrengthOperationType.
Proof. solve_decision. Defined.

(** [pydglab_ws.StrengthData], as read by the controller. *)
Module StrengthData.
Record t : Set := mk { a : Z; b : Z; a_limit : Z; b_limit : Z }.
End StrengthData.

(** A call on the device transport ([self.client]). *)
Inductive ClientCall : Set :=
  | client_set_strength (channel : Channel) (operation : StrengthOperationType)
      (value : Z).

(** ** [class ChannelCommand] *)
Module ChannelCommand.
Record t : Type := mk {
  command_type : CommandType;
  channel : Channel;
  operation : StrengthOperationType;
  value : Z;
  source_id : string;
  timestamp : Q
}.

(** [uuid4] is the string [str(uuid.uuid4())] would produce and
    [time_time] the reading [time.time()] would return. *)
Definition __init__ (uuid4 : string) (time_time : Q)
    (command_type : CommandType) (channel : Channel)
    (operation : StrengthOperationType) (value : Z)
    (source_id : option string) (timestamp : option Q) : t :=
  {| command_type := command_type;
     channel := channel;
     operation := operation;
     value := value;
     source_id := py_or_str source_id uuid4;
     timestamp := py_or_float timestamp time_time |}.

Definition __lt__ {ranks : CommandTypeValues} (self other : t) : bool :=
  if negb (CommandType_value (command_type self)
            =? CommandType_value (command_type other))
  then CommandType_value (command_type self)
         <? CommandType_value (command_type other)
  else Qltb (timestamp self) (timestamp other).
End ChannelCommand.

(** ** [class DGLabController] *)
Module DGLabController.
Record t : Type := mk {
  last_strength : option StrengthData.t;
  pulse_mode_a : Z;
  pulse_mode_b : Z;
  command_queue : list ChannelCommand.t;
  command_sources : gmap string Q;
  enable_gui_commands : bool;
  enable_panel_commands : bool;
  enable_interaction_commands : bool;
  enable_interaction_mode_a : bool;
  enable_interaction_mode_b : bool
}.

(** [self.source_cooldowns], filled in [__init__] and never written again. *)
Definition source_cooldowns (c : CommandType) : Q :=
  match c with
  | GUI_COMMAND => 0
  | PANEL_COMMAND => 1 # 10
  | INTERACTION_COMMAND => 5 # 100
  | TON_COMMAND => 2 # 10
  end.

Definition __init__ : t :=
  {| last_strength := None;
     pulse_mode_a := 0;
     pulse_mode_b := 0;
     command_queue := [];
     command_sources := ∅;
     enable_gui_commands := true;
     enable_panel_commands := true;
     enable_interaction_commands := true;
     enable_interaction_mode_a := false;
     enable_interaction_mode_b := false |}.

Definition set_command_queue (q : list ChannelCommand.t) (self : t) : t :=
  {| last_strength := last_strength self;
     pulse_mode_a := pulse_mode_a self;
     pulse_mode_b := pulse_mode_b self;
     command_queue := q;
     command_sources := command_sources self;
     enable_gui_commands := enable_gui_commands self;
     enable_panel_commands := enable_panel_commands self;
     enable_interaction_commands := enable_interaction_commands self;
     enable_interaction_mode_a := enable_interaction_mode_a self;
     enable_interaction_mode_b := enable_interaction_mode_b self |}.

Definition set_command_sources (m : gmap string Q) (self : t) : t :=
  {| last_strength := last_strength self;
     pulse_mode_a := pulse_mode_a self;
     pulse_mode_b := pulse_mode_b self;
     command_queue := command_queue self;
     command_sources := m;
     enable_gui_commands := enable_gui_commands self;
     enable_panel_commands := enable_panel_commands self;
     enable_interaction_commands := enable_interaction_commands self;
     enable_interaction_mode_a := enable_interaction_mode_a self;
     enable_interaction_mode_b := enable_interaction_mode_b self |}.

Definition set_pulse_modes (ma mb : Z) (self : t) : t :=
  {| last_strength := last_strength self;
     pulse_mode_a := ma;
     pulse_mode_b := mb;
     command_queue := command_queue self;
     command_sources := command_sources self;
     enable_gui_commands := enable_gui_commands self;
     enable_panel_commands := enable_panel_commands self;
     enable_interaction_commands := enable_interaction_commands self;
     enable_interaction_mode_a := enable_interaction_mode_a self;
     enable_interaction_mode_b := enable_interaction_mode_b self |}.

(** [update_strength]: the device reported its strengths and limits. *)
Definition update_strength (strength_data : StrengthData.t) (self : t) : t :=
  {| last_strength := Some strength_data;
     pulse_mode_a := pulse_mode_a self;
     pulse_mode_b := pulse_mode_b self;
     command_queue := command_queue self;
     command_sources := command_sources self;
     enable_gui_commands := enable_gui_commands self;
     enable_panel_commands := enable_panel_commands self;
     enable_interaction_commands := enable_interaction_commands self;
     enable_interaction_mode_a := enable_interaction_mode_a self;
     enable_interaction_mode_b := enable_interaction_mode_b self |}.

(** The feature toggles written by the settings tab and the panel. *)
Definition set_toggles (gui panel interaction mode_a mode_b : bool)
    (self : t) : t :=
  {| last_strength := last_strength self;
     pulse_mode_a := pulse_mode_a self;
     pulse_mode_b := pulse_mode_b self;
     command_queue := command_queue self;
     command_sources := command_sources self;
     enable_gui_commands := gui;
     enable_panel_commands := panel;
     enable_interaction_commands := interaction;
     enable_interaction_mode_a := mode_a;
     enable_interaction_mode_b := mode_b |}.

(** The transport calls are returned as a list, oldest first. *)
Definition set_strength (self : t) (channel : Channel) (value : Z)
    : list ClientCall :=
  [client_set_strength channel SET_TO value].

Definition adjust_strength (self : t) (channel : Channel) (delta : Z)
    : list ClientCall :=
  match last_strength self with
  | Some ls =>
      match channel with
      | Channel_A =>
          let new_strength :=
            Z.max 0 (Z.min (StrengthData.a_limit ls) (StrengthData.a ls + delta)) in
          [client_set_strength Channel_A SET_TO new_strength]
      | Channel_B =>
          let new_strength :=
            Z.max 0 (Z.min (StrengthData.b_limit ls) (StrengthData.b ls + delta)) in
          [client_set_strength Channel_B SET_TO new_strength]
      end
  | None => []
  end.

Definition set_pulse_mode (self : t) (channel : Channel) (mode : Z) : t :=
  match channel with
  | Channel_A => set_pulse_modes mode (pulse_mode_b self) self
  | Channel_B => set_pulse_modes (pulse_mode_a self) mode self
  end.

Definition execute_command (self : t) (command : ChannelCommand.t)
    : t * list ClientCall :=
  let channel := ChannelCommand.channel command in
  let value := ChannelCommand.value command in
  match ChannelCommand.operation command with
  | SET_TO => (self, set_strength self channel value)
  | INCREASE => (self, adjust_strength self channel value)
  | DECREASE => (self, adjust_strength self channel (- value))
  | SET_PULSE_MODE => (set_pulse_mode self channel value, [])
  end.

(** The ledger key [f"{command_type.name}_{source_id or 'default'}"]. *)
Definition source_key (command_type : CommandType) (source_id : option string)
    : string :=
  CommandType_name command_type +:+ "_" +:+ py_or_str source_id "default".

(** [add_command]; [now] is the reading of [time.time()] and [uuid4] the
    identifier the command constructor would draw.  [now] is a positive
    epoch time in every run, so the constructor keeps it as the
    timestamp; its own clock fallback is given the same reading. *)
Definition add_command {ranks : CommandTypeValues} (self : t) (now : Q)
    (uuid4 : string) (command_type : CommandType) (channel : Channel)
    (operation : StrengthOperationType) (value : Z)
    (source_id : option string) : option t :=
  let source_key := source_key command_type source_id in
  let in_cooldown :=
    match command_sources self !! source_key with
    | Some last_time =>
        let cooldown := source_cooldowns command_type in
        Qltb (now - last_time) cooldown
    | None => false
    end in
  if in_cooldown then Some self
  else
    let self1 :=
      set_command_sources (<[source_key := now]> (command_sources self)) self in
    queue ← heappush ChannelCommand.__lt__ (command_queue self1)
               (ChannelCommand.__init__ uuid4 now command_type channel
                  operation value source_id (Some now));
    Some (set_command_queue queue self1).

(** What one turn of the dispatcher loop did. *)
Record Dispatch : Type := mk_dispatch {
  taken : ChannelCommand.t;
  skipped : bool;
  calls : list ClientCall
}.

(** The body of [while True] in [process_commands], after
    [command_queue.get()] has returned [command]; [current_time] is the
    reading of [time.time()]. *)
Definition dispatch_command (self : t) (current_time : Q)
    (command : ChannelCommand.t) : t * Dispatch :=
  let last_command_time :=
    default 0%Q (command_sources self !! ChannelCommand.source_id command) in
  let cooldown := source_cooldowns (ChannelCommand.command_type command) in
  if Qltb (current_time - last_command_time) cooldown
  then (self, mk_dispatch command true [])
  else
    let self1 :=
      set_command_sources
        (<[ChannelCommand.source_id command := current_time]>
           (command_sources self)) self in
    let command_type := ChannelCommand.command_type command in
    let '(self2, calls) :=
      if bool_decide (command_type = GUI_COMMAND) && enable_gui_commands self1
      then execute_command self1 command
      else if bool_decide (command_type = PANEL_COMMAND)
              && enable_panel_commands self1
      then execute_command self1 command
      else if bool_decide (command_type = INTERACTION_COMMAND)
              && enable_interaction_commands self1
      then
        if (bool_decide (ChannelCommand.channel command = Channel_A)
              && enable_interaction_mode_a self1)
           || (bool_decide (ChannelCommand.channel command = Channel_B)
                 && enable_interaction_mode_b self1)
        then execute_command self1 command
        else (self1, [])
      else if bool_decide (command_type = TON_COMMAND)
      then execute_command self1 command
      else (self1, []) in
    (self2, mk_dispatch command false calls).

(** One turn of the loop: [None] when the queue is empty and [get()]
    keeps waiting. *)
Definition process_commands_step {ranks : CommandTypeValues} (self : t)
    (current_time : Q) : option (t * Dispatch) :=
  '(command, queue) ← heappop ChannelCommand.__lt__ (command_queue self);
  Some (dispatch_command (set_command_queue queue self) current_time command).

(** The loop itself, run for as many turns as there are clock readings. *)
Fixpoint process_commands {ranks : CommandTypeValues} (self : t) (clock : list Q)
    : t * list Dispatch :=
  match clock with
  | [] => (self, [])
  | current_time :: clock' =>
      match process_commands_step self current_time with
      | Some (self1, d) =>
          let '(self2, ds) := process_commands self1 clock' in
          (self2, d :: ds)
      | None => (self, [])
      end
  end.




(** The attributes that [strength_fire_mode] reads and writes. *)
Record FireState : Set := mk_fire {
  fire_mode_active : bool;
  fire_mode_origin_strength_a : Z;
  fire_mode_origin_strength_b : Z
}.

(** [strength_fire_mode], run under [fire_mode_lock] from entry to exit.
    [transport] tells which calls on the client succeed; the method has
    no handler of its own, so a failing call ends it with the exception
    (the last component is then [Raised]). *)
Definition strength_fire_mode (self : FireState) (transport : ClientCall → bool)
    (value : bool) (channel : Channel) (fire_strength : Z)
    (last_strength : option StrengthData.t)
    : FireState * list ClientCall * PyResult unit :=
  if value && negb (fire_mode_active self) then
    let self1 :=
      match last_strength with
      | Some ls => mk_fire true (StrengthData.a ls) (StrengthData.b ls)
      | None =>
          mk_fire true (fire_mode_origin_strength_a self)
            (fire_mode_origin_strength_b self)
      end in
    let fire := client_set_strength channel SET_TO fire_strength in
    if transport fire then
      match last_strength with
      | Some _ =>
          let restore :=
            match channel with
            | Channel_A =>
                client_set_strength Channel_A SET_TO
                  (fire_mode_origin_strength_a self1)
            | Channel_B =>
                client_set_strength Channel_B SET_TO
                  (fire_mode_origin_strength_b self1)
            end in
          if transport restore then
            (mk_fire false (fire_mode_origin_strength_a self1)
               (fire_mode_origin_strength_b self1),
             [fire; restore], Returned ())
          else (self1, [fire; restore], Raised)
      | None =>
          (mk_fire false (fire_mode_origin_strength_a self1)
             (fire_mode_origin_strength_b self1),
           [fire], Returned ())
      end
    else (self1, [fire], Raised)
  else (self, [], Returned ()).
End DGLabController.

(** ** [plugin_system/event.py] *)

Inductive EventPriority : Set :=
  | LOWEST
  | LOW
  | NORMAL
  | HIGH
  | HIGHEST
  | MONITOR.

Global Instance EventPriority_eq_dec : EqDecision EventPriority.
Proof. solve_decision. Defined.

(** [priority.value] *)
Definition EventPriority_value (p : EventPriority) : Z :=
  match p with
  | LOWEST => 0
  | LOW => 1
  | NORMAL => 2
  | HIGH => 3
  | HIGHEST => 4
  | MONITOR => 5
  end.

(** A callable is known by its identity: [id(handler)] is this number and
    [==] on handlers compares it.  A plugin instance is known by
    [id(plugin)] in the same way. *)
Definition Callable : Set := N.
Definition PluginRef : Set := N.

Module EventHandler.
Record t : Set := mk {
  handler : Callable;
  priority : EventPriority;
  plugin : option PluginRef
}.

Definition __lt__ (self other : t) : bool :=
  EventPriority_value (priority self) <? EventPriority_value (priority other).
End EventHandler.

Module Event.
Record t : Set := mk {
  name : string;
  args : list (string * N);
  _cancelled : bool
}.

Definition __init__ (name : string) (kwargs : list (string * N)) : t :=
  {| name := name; args := kwargs; _cancelled := false |}.

Definition cancel (self : t) : t :=
  {| name := name self; args := args self; _cancelled := true |}.

Definition is_cancelled (self : t) : bool := _cancelled self.
End Event.

(** What a handler does with the event it receives: it may call
    [event.cancel()] and it may raise. *)
Record HandlerRun : Set := mk_run { cancels : bool; raises : bool }.

Definition HandlerCode : Type := Callable → Event.t → HandlerRun.

Module EventManager.
Record t : Type := mk {
  _event_handlers : gmap string (list EventHandler.t);
  _plugin_events : gmap N (list (string * EventHandler.t))
}.

Definition __init__ : t :=
  {| _event_handlers := ∅; _plugin_events := ∅ |}.

Definition register_event_handler (self : t) (event_name : string)
    (handler : Callable) (priority : EventPriority)
    (plugin : option PluginRef) : t :=
  let handler_obj := EventHandler.mk handler priority plugin in
  let handlers :=
    list_sort EventHandler.__lt__
      (default [] (_event_handlers self !! event_name) ++ [handler_obj]) in
  let event_handlers := <[event_name := handlers]> (_event_handlers self) in
  match plugin with
  | Some plugin_id =>
      let recorded := default [] (_plugin_events self !! plugin_id) in
      let event_key := event_name +:+ "_" +:+ pretty handler in
      {| _event_handlers := event_handlers;
         _plugin_events :=
           <[plugin_id := dict_set event_key handler_obj recorded]>
             (_plugin_events self) |}
  | None =>
      {| _event_handlers := event_handlers;
         _plugin_events := _plugin_events self |}
  end.

(** The list comprehension that drops [handler] from the handlers of
    [event_name], followed by the removal of an emptied list. *)
Definition remove_handler (event_handlers : gmap string (list EventHandler.t))
    (event_name : string) (handler : Callable)
    : gmap string (list EventHandler.t) :=
  match event_handlers !! event_name with
  | Some handlers =>
      let kept :=
        filter (λ h, EventHandler.handler h ≠ handler) handlers in
      match kept with
      | [] => delete event_name event_handlers
      | _ :: _ => <[event_name := kept]> event_handlers
      end
  | None => event_handlers
  end.

Definition unregister_event_handler (self : t) (event_name : string)
    (handler : Callable) : t :=
  {| _event_handlers := remove_handler (_event_handlers self) event_name handler;
     _plugin_events := _plugin_events self |}.

Definition unregister_plugin_events (self : t) (plugin : PluginRef) : t :=
  match _plugin_events self !! plugin with
  | Some recorded =>
      let event_handlers :=
        foldl
          (λ acc item,
             let event_key := item.1 in
             let handler_obj := item.2 in
             let event_name := split_head "_"%char event_key in
             remove_handler acc event_name (EventHandler.handler handler_obj))
          (_event_handlers self) recorded in
      {| _event_handlers := event_handlers;
         _plugin_events := delete plugin (_plugin_events self) |}
  | None => self
  end.

(** One [for handler_obj in ...] loop of [emit]: the event after the
    loop and the handlers that were invoked, in order. *)
Fixpoint dispatch (code : HandlerCode) (handlers : list EventHandler.t)
    (event : Event.t) : Event.t * list EventHandler.t :=
  match handlers with
  | [] => (event, [])
  | handler_obj :: rest =>
      if Event.is_cancelled event then (event, [])
      else
        let run := code (EventHandler.handler handler_obj) event in
        let event1 := if cancels run then Event.cancel event else event in
        let '(event2, invoked) := dispatch code rest event1 in
        (event2, handler_obj :: invoked)
  end.

(** What [emit] returns and, as a trace, whom it invoked. *)
Record Emission : Type := mk_emission {
  event : Event.t;
  named_calls : list EventHandler.t;
  wildcard_calls : list EventHandler.t
}.

Definition emit (self : t) (code : HandlerCode) (event_name : string)
    (kwargs : list (string * N)) : Emission :=
  let event := Event.__init__ event_name kwargs in
  let '(event1, named) :=
    match _event_handlers self !! event_name with
    | Some handlers => dispatch code handlers event
    | None => (event, [])
    end in
  let '(event2, wildcard) :=
    match _event_handlers self !! "*" with
    | Some handlers => dispatch code handlers event1
    | None => (event1, [])
    end in
  mk_emission event2 named wildcard.

Definition get_handler_count (self : t) (event_name : string) : nat :=
  match _event_handlers self !! event_name with
  | Some handlers => length handlers
  | None => 0
  end.
End EventManager.

(** ** [plugin_system/plugin.py] and [plugin_manager.py] *)

(** What a life-cycle call did besides changing the plugin. *)
Inductive Effect : Set :=
  | called_initialize
  | called_shutdown
  | created_task (event_name : string) (plugin : PluginRef)
  | logged_error.

Module Plugin.
Record t : Set := mk {
  id : PluginRef;
  name : string;
  enabled : bool
}.

Definition set_enabled (e : bool) (self : t) : t :=
  {| id := id self; name := name self; enabled := e |}.

(** [plugin_manager.notify_plugin_enabled(self)] and
    [notify_plugin_disabled(self)]: [asyncio.create_task] on the
    coroutine [emit_event(event_name, plugin=plugin)].  It raises when
    the calling thread has no running event loop. *)
Definition notify (running_loop : bool) (event_name : string) (self : t)
    : PyResult (list Effect) :=
  if running_loop then Returned [created_task event_name (id self)]
  else Raised.

(** [enable]; [initialize] is what [self.initialize()] does when it is
    called. *)
Definition enable (self : t) (initialize : PyResult bool)
    (running_loop : bool) : bool * t * list Effect :=
  if negb (enabled self) then
    match initialize with
    | Returned success =>
        if success then
          let self1 := set_enabled true self in
          match notify running_loop "plugin_enabled" self1 with
          | Returned effects => (success, self1, called_initialize :: effects)
          | Raised => (false, self1, [called_initialize; logged_error])
          end
        else (success, self, [called_initialize])
    | Raised => (false, self, [called_initialize; logged_error])
    end
  else (false, self, []).

(** [disable]; [shutdown] is what [self.shutdown()] does when it is
    called. *)
Definition disable (self : t) (shutdown : PyResult unit)
    (running_loop : bool) : t * list Effect :=
  if enabled self then
    match shutdown with
    | Returned _ =>
        let self1 := set_enabled false self in
        match notify running_loop "plugin_disabled" self1 with
        | Returned effects => (self1, called_shutdown :: effects)
        | Raised => (self1, [called_shutdown; logged_error])
        end
    | Raised => (self, [called_shutdown; logged_error])
    end
  else (self, []).
End Plugin.

Module PluginManager.
Record t : Type := mk {
  plugins : gmap string Plugin.t;
  event_manager : EventManager.t
}.

Definition _enable_plugin_async (self : t) (plugin_name : string)
    (initialize : PyResult bool) (running_loop : bool)
    : bool * t * list Effect :=
  match plugins self !! plugin_name with
  | Some plugin =>
      let '(success, plugin1, effects) :=
        Plugin.enable plugin initialize running_loop in
      (success,
       {| plugins := <[plugin_name := plugin1]> (plugins self);
          event_manager := event_manager self |},
       effects)
  | None => (false, self, [])
  end.

Definition enable_plugin (self : t) (plugin_name : string)
    (initialize : PyResult bool) (running_loop : bool)
    : bool * t * list Effect :=
  _enable_plugin_async self plugin_name initialize running_loop.

Definition disable_plugin (self : t) (plugin_name : string)
    (shutdown : PyResult unit) (running_loop : bool) : t * list Effect :=
  match plugins self !! plugin_name with
  | Some plugin =>
      let '(plugin1, effects) := Plugin.disable plugin shutdown running_loop in
      ({| plugins := <[plugin_name := plugin1]> (plugins self);
          event_manager :=
            EventManager.unregister_plugin_events (event_manager self)
              (Plugin.id plugin1) |},
       effects)
  | None => (self, [])
  end.

(** A marked callable that introspection finds on a plugin instance:
    [attr._event_handler] with its name and priority, and [attr] itself. *)
Record DeclaredHandler : Set := mk_declared {
  declared_event : string;
  declared_handler : Callable;
  declared_priority : EventPriority
}.

(** [_register_plugin_handlers], for the event handlers; [declared] lists
    the marked attributes in the order of [dir(plugin)]. *)
Definition _register_plugin_handlers (self : t) (plugin : Plugin.t)
    (declared : list DeclaredHandler) : t :=
  {| plugins := plugins self;
     event_manager :=
       foldl
         (λ em d,
            EventManager.register_event_handler em (declared_event d)
              (declared_handler d) (declared_priority d)
              (Some (Plugin.id plugin)))
         (event_manager self) declared |}.

(** [register_plugin]; [plugin] is the instance that the call of
    [plugin_class] has returned. *)
Definition register_plugin (self : t) (plugin : Plugin.t)
    (declared : list DeclaredHandler) : t :=
  let plugin_name := Plugin.name plugin in
  let plugin_name :=
    match plugins self !! plugin_name with
    | Some _ => plugin_name +:+ "_" +:+ pretty (Plugin.id plugin)
    | None => plugin_name
    end in
  _register_plugin_handlers
    {| plugins := <[plugin_name := plugin]> (plugins self);
       event_manager := event_manager self |}
    plugin declared.

(** The loop [for plugin_name in ...: await self.disable_plugin(plugin_name)]
    over the names [order]; [shutdown] tells what the [shutdown()] of each
    plugin does. *)
Definition disable_plugins (self : t) (order : list string)
    (shutdown : string → PyResult unit) (running_loop : bool)
    : t * list Effect :=
  foldl
    (λ acc plugin_name,
       let '(self1, effects1) :=
         disable_plugin acc.1 plugin_name (shutdown plugin_name) running_loop in
       (self1, acc.2 ++ effects1))
    (self, []) order.

(** [disable_all_plugins]: the loop over the keys of [self.plugins].  The
    keys are visited once each; the order in which the finite map lists
    them stands for the insertion order of the dictionary. *)
Definition disable_all_plugins (self : t) (shutdown : string → PyResult unit)
    (running_loop : bool) : t * list Effect :=
  disable_plugins self (map_to_list (plugins self)).*1 shutdown running_loop.

(** The loop of [_enable_non_disabled_plugins] over the names [order]:
    a name in [disabled_plugins] is passed over. *)
Definition enable_plugins (self : t) (order : list string)
    (disabled_plugins : list string) (initialize : string → PyResult bool)
    (running_loop : bool) : t * list Effect :=
  foldl
    (λ acc plugin_name,
       if bool_decide (plugin_name ∈ disabled_plugins) then acc
       else
         let '(_, self1, effects1) :=
           _enable_plugin_async acc.1 plugin_name (initialize plugin_name)
             running_loop in
         (self1, acc.2 ++ effects1))
    (self, []) order.

Definition _enable_non_disabled_plugins (self : t)
    (disabled_plugins : list string) (initialize : string → PyResult bool)
    (running_loop : bool) : t * list Effect :=
  enable_plugins self (map_to_list (plugins self)).*1 disabled_plugins
    initialize running_loop.

(** [enable_all_plugins] enables every key. *)
Definition enable_all_plugins (self : t) (initialize : string → PyResult bool)
    (running_loop : bool) : t * list Effect :=
  enable_plugins self (map_to_list (plugins self)).*1 [] initialize
    running_loop.
End PluginManager.

(** ** Vocabulary of the statements *)

(** The heap invariant of [heapq]: no entry is smaller than its parent. *)
Section heap_invariant.
Context {T : Type} (lt : T → T → bool).

Definition heap_ok (h : list T) : Prop :=
  ∀ i x p, (0 < i)%nat →
    h !! i = Some x → h !! parent_of i = Some p → lt x p = false.

(** The invariant away from the slot [pos] that a sift is filling. *)
Definition edges_ok (h : list T) (pos : nat) : Prop :=
  ∀ i x p, (0 < i)%nat → i ≠ pos → parent_of i ≠ pos →
    h !! i = Some x → h !! parent_of i = Some p → lt x p = false.

Definition grand_ok (h : list T) (pos : nat) : Prop :=
  ∀ c x g, (0 < c)%nat → (0 < pos)%nat → parent_of c = pos →
    h !! c = Some x → h !! parent_of pos = Some g → lt x g = false.

Definition below_ok (newitem : T) (h : list T) (pos : nat) : Prop :=
  ∀ c x, (0 < c)%nat → parent_of c = pos →
    h !! c = Some x → lt x newitem = false.
End heap_invariant.

(** The order of the specification on commands: class rank first, then
    timestamp. *)
Definition ChannelCommand_le {ranks : CommandTypeValues} (c1 c2 : ChannelCommand.t)
    : Prop :=
  CommandType_value (ChannelCommand.command_type c1)
    < CommandType_value (ChannelCommand.command_type c2)
  ∨ (CommandType_value (ChannelCommand.command_type c1)
       = CommandType_value (ChannelCommand.command_type c2)
     ∧ (ChannelCommand.timestamp c1 <= ChannelCommand.timestamp c2)%Q).

(** What happened to the command queue before the dispatcher is observed:
    [put] by [add_command] and [get] by earlier turns of the loop.  A [put]
    never fails ([heappush_total] below) and a [get] on an empty queue
    leaves it empty. *)
Inductive QueueOp : Type :=
  | queue_put (item : ChannelCommand.t)
  | queue_get.

Fixpoint queue_after {ranks : CommandTypeValues} (ops : list QueueOp)
    (queue : list ChannelCommand.t) : list ChannelCommand.t :=
  match ops with
  | [] => queue
  | queue_put item :: ops' =>
      queue_after ops' (default queue (heappush ChannelCommand.__lt__ queue item))
  | queue_get :: ops' =>
      queue_after ops'
        (match heappop ChannelCommand.__lt__ queue with
         | Some (_, queue') => queue'
         | None => queue
         end)
  end.

(** A sample rank table for the examples: the classes in the order the
    specification lists them. *)
Definition sample_ranks : CommandTypeValues :=
  λ c, match c with
       | GUI_COMMAND => 0
       | PANEL_COMMAND => 1
       | INTERACTION_COMMAND => 2
       | TON_COMMAND => 3
       end.

(** The cooldown gate in the words of the specification: a submission
    is accepted when its pair has no ledger entry or when at least the
    cooldown of its class has passed since the entry. *)
Definition cooldown_allows (ledger : gmap string Q) (key : string)
    (cooldown now : Q) : bool :=
  match ledger !! key with
  | Some last_accepted => Qle_bool cooldown (now - last_accepted)
  | None => true
  end.

(** The reported strength and limit of a channel. *)
Definition channel_strength (ls : StrengthData.t) (channel : Channel) : Z :=
  match channel with
  | Channel_A => StrengthData.a ls
  | Channel_B => StrengthData.b ls
  end.

Definition channel_limit (ls : StrengthData.t) (channel : Channel) : Z :=
  match channel with
  | Channel_A => StrengthData.a_limit ls
  | Channel_B => StrengthData.b_limit ls
  end.

(** The dispatcher drops a command after its cooldown check when the
    toggle of its class is off or, for an interaction command, when the
    interaction mode of its channel is off. *)
Definition toggled_off (self : DGLabController.t) (command : ChannelCommand.t)
    : bool :=
  match ChannelCommand.command_type command with
  | GUI_COMMAND => negb (DGLabController.enable_gui_commands self)
  | PANEL_COMMAND => negb (DGLabController.enable_panel_commands self)
  | INTERACTION_COMMAND =>
      negb (DGLabController.enable_interaction_commands self)
      || negb (match ChannelCommand.channel command with
               | Channel_A => DGLabController.enable_interaction_mode_a self
               | Channel_B => DGLabController.enable_interaction_mode_b self
               end)
  | TON_COMMAND => false
  end.

(** A controller right after a panel command of source ["s"] was
    accepted at time 10 (see [panel_submitted_reached]). *)
Definition panel_submitted : DGLabController.t :=
  DGLabController.mk None 0 0
    [ChannelCommand.mk PANEL_COMMAND Channel_A SET_TO 5 "s" 10]
    {["PANEL_COMMAND_s" := 10%Q]} true true true false false.

(** The dispatch order of the event bus: ascending priority value. *)
Definition EventHandler_le (h1 h2 : EventHandler.t) : Prop :=
  EventPriority_value (EventHandler.priority h1)
    ≤ EventPriority_value (EventHandler.priority h2).

(** The calls that shape the handler table of an event manager. *)
Inductive BusOp : Type :=
  | bus_register (event_name : string) (handler : Callable)
      (priority : EventPriority) (plugin : option PluginRef)
  | bus_unregister (event_name : string) (handler : Callable)
  | bus_unregister_plugin (plugin : PluginRef).

Definition bus_apply (self : EventManager.t) (op : BusOp) : EventManager.t :=
  match op with
  | bus_register event_name handler priority plugin =>
      EventManager.register_event_handler self event_name handler priority plugin
  | bus_unregister event_name handler =>
      EventManager.unregister_event_handler self event_name handler
  | bus_unregister_plugin plugin =>
      EventManager.unregister_plugin_events self plugin
  end.

Definition bus_after (ops : list BusOp) : EventManager.t :=
  foldl bus_apply EventManager.__init__ ops.

(** Every list of the handler table is in dispatch order. *)
Definition handlers_sorted (self : EventManager.t) : Prop :=
  ∀ event_name handlers,
    EventManager._event_handlers self !! event_name = Some handlers →
    StronglySorted EventHandler_le handlers.

(** Handlers that neither cancel nor raise, and the same with handler 1
    cancelling every event it sees. *)
Definition quiet_handlers : HandlerCode := λ _ _, mk_run false false.

Definition handler_1_cancels : HandlerCode :=
  λ handler _, mk_run (bool_decide (handler = 1%N)) false.

(** The scenario of the specification: handlers 1, 2 and 3 registered for
    event ["x"] at Highest, Normal and Lowest priority, in that order. *)
Definition three_handlers : list BusOp :=
  [bus_register "x" 1%N HIGHEST None;
   bus_register "x" 2%N NORMAL None;
   bus_register "x" 3%N LOWEST None].

(** How often an effect occurs in a trace. *)
Global Instance Effect_eq_dec : EqDecision Effect.
Proof. solve_decision. Defined.

Definition count_effect (e : Effect) (trace : list Effect) : nat :=
  length (filter (λ e', e' = e) trace).

(** A plugin host with one enabled plugin ["P"] (instance 7) whose
    handler 42 was registered on its behalf for [event_name]. *)
Definition host_with_handler (event_name : string) : PluginManager.t :=
  PluginManager.mk {["P" := Plugin.mk 7%N "P" true]}
    (EventManager.register_event_handler EventManager.__init__ event_name
       42%N NORMAL (Some 7%N)).

(** A plugin host with one plugin ["P"] that is not enabled. *)
Definition host_with_idle_plugin : PluginManager.t :=
  PluginManager.mk {["P" := Plugin.mk 7%N "P" false]} EventManager.__init__.


(** A transport on which every call succeeds, and one on which none does. *)
Definition transport_up : ClientCall → bool := λ _, true.
Definition transport_down : ClientCall → bool := λ _, false.

(** Two controller states with the same strength report and the same
    toggles. *)
Definition same_settings (s1 s2 : DGLabController.t) : Prop :=
  DGLabController.last_strength s1 = DGLabController.last_strength s2
  ∧ DGLabController.enable_gui_commands s1
    = DGLabController.enable_gui_commands s2
  ∧ DGLabController.enable_panel_commands s1
    = DGLabController.enable_panel_commands s2
  ∧ DGLabController.enable_interaction_commands s1
    = DGLabController.enable_interaction_commands s2
  ∧ DGLabController.enable_interaction_mode_a s1
    = DGLabController.enable_interaction_mode_a s2
  ∧ DGLabController.enable_interaction_mode_b s1
    = DGLabController.enable_interaction_mode_b s2.

(** A controller with both interaction modes off, a strength report and
    three commands waiting. *)
Definition busy_controller : DGLabController.t :=
  DGLabController.mk (Some (StrengthData.mk 10 20 100 50)) 0 0
    [ChannelCommand.mk GUI_COMMAND Channel_A INCREASE 500 "g" 1;
     ChannelCommand.mk INTERACTION_COMMAND Channel_A SET_TO 7 "i" 2;
     ChannelCommand.mk TON_COMMAND Channel_B DECREASE 500 "t" 3]
    ∅ true true true false false.

(** The handlers registered for an event name, in dispatch order. *)
Definition registered_for (self : EventManager.t) (event_name : string)
    : list EventHandler.t :=
  default [] (EventManager._event_handlers self !! event_name).

(** Whether a character occurs in a string, and the characters after its
    first occurrence. *)
Fixpoint string_has (c : ascii) (s : string) : bool :=
  match s with
  | EmptyString => false
  | String c' s' => bool_decide (c' = c) || string_has c s'
  end.

Fixpoint split_rest (sep : ascii) (s : string) : string :=
  match s with
  | EmptyString => EmptyString
  | String c s' => if bool_decide (c = sep) then s' else split_rest sep s'
  end.

(** The key under which [register_event_handler] records a handler of a
    plugin. *)
Definition event_key (event_name : string) (handler : Callable) : string :=
  event_name +:+ "_" +:+ pretty handler.

(** No event name of the handler table is kept with an empty list. *)
Definition handlers_nonempty (self : EventManager.t) : Prop :=
  ∀ event_name handlers,
    EventManager._event_handlers self !! event_name = Some handlers →
    handlers ≠ [].

(** Every handler that an event without underscore in its name has on
    behalf of a plugin is recorded for that plugin under its key. *)
Definition plugin_records_ok (self : EventManager.t) : Prop :=
  ∀ event_name handlers h plugin,
    string_has "_" event_name = false →
    EventManager._event_handlers self !! event_name = Some handlers →
    h ∈ handlers →
    EventHandler.plugin h = Some plugin →
    ∃ recorded handler_obj,
      EventManager._plugin_events self !! plugin = Some recorded
      ∧ (event_key event_name (EventHandler.handler h), handler_obj) ∈ recorded
      ∧ EventHandler.handler handler_obj = EventHandler.handler h.

(** A call of [add_command]: its arguments, the reading of [time.time()]
    and the identifier that the command constructor would draw. *)
Record Submission : Type := mk_submission {
  submitted_at : Q;
  drawn_uuid4 : string;
  submitted_type : CommandType;
  submitted_channel : Channel;
  submitted_operation : StrengthOperationType;
  submitted_value : Z;
  submitted_source : option string
}.






(** The submission time of the last accepted call of the log that is,
    under [same], of the pair of [s]. *)
Fixpoint last_accepted (same : Submission → Submission → bool)
    (log : list (Submission * bool)) (s : Submission) : option Q :=
  match log with
  | [] => None
  | (s', ok) :: log' =>
      match last_accepted same log' s with
      | Some t => Some t
      | None => if ok && same s' s then Some (submitted_at s') else None
      end
  end.


(* ===================================================================== *)
(** * Part II: the properties                                             *)
(* ===================================================================== *)

(** ** Timestamps *)

Lemma Qltb_lt (x y : Q) : Qltb x y = true ↔ (x < y)%Q.
Proof. unfold Qltb, Qlt. apply Z.ltb_lt. Qed.

Lemma Qltb_ge (x y : Q) : Qltb x y = false ↔ (y <= x)%Q.
Proof. unfold Qltb, Qle. apply Z.ltb_ge. Qed.

(** ** [heapq] keeps the heap invariant and returns the minimum *)

Lemma parent_of_div2 pos : parent_of pos = Nat.div2 (pos - 1).
Proof. reflexivity. Qed.

Ltac heap_lia :=
  rewrite ?parent_of_div2 in *; zify; Z.to_euclidean_division_equations; lia.

Lemma parent_of_lt i : (0 < i)%nat → (parent_of i < i)%nat.
Proof. intros; heap_lia. Qed.

Lemma parent_of_child i c :
  (0 < c)%nat → parent_of c = i ↔ (c = 2 * i + 1 ∨ c = 2 * i + 2)%nat.
Proof. intros; heap_lia. Qed.

Lemma hole_move {T} (h : list T) i j m x :
  h !! j = Some m → i ≠ j → (i < length h)%nat →
  <[j := x]> (<[i := m]> h) ≡ₚ <[i := x]> h.
Proof.
  intros Hj Hne Hi.
  rewrite <-(list_insert_insert_eq h i m x).
  apply Permutation_insert_swap.
  - by apply list_lookup_insert_eq.
  - by rewrite list_lookup_insert_ne.
Qed.

Lemma siftup_loop_unfold {T} (lt : T → T → bool) fuel (h : list T) endpos pos :
  _siftup_loop lt fuel h endpos pos =
  if decide (2 * pos + 1 < endpos)%nat then
    match fuel with
    | O => None
    | S fuel' =>
        childpos' ←
          (if decide (2 * pos + 1 + 1 < endpos)%nat then
             l ← h !! (2 * pos + 1)%nat;
             r ← h !! (2 * pos + 1 + 1)%nat;
             Some (if negb (lt l r) then (2 * pos + 1 + 1)%nat
                   else (2 * pos + 1)%nat)
           else Some (2 * pos + 1)%nat);
        child ← h !! childpos';
        _siftup_loop lt fuel' (<[pos := child]> h) endpos childpos'
    end
  else Some (h, pos).
Proof. by destruct fuel. Qed.

(** The sifts terminate within their fuel and only move entries around;
    this needs nothing of the comparison. *)
Section heapq_total.
Context {T : Type} (lt : T → T → bool).

Lemma siftdown_loop_total fuel : ∀ (h : list T) pos newitem startpos,
  (pos ≤ fuel)%nat → (pos < length h)%nat →
  ∃ h', _siftdown_loop lt fuel h newitem startpos pos = Some h'
        ∧ h' ≡ₚ <[pos := newitem]> h.
Proof.
  induction fuel as [|fuel IH]; intros h pos newitem startpos Hfuel Hlen.
  - assert (pos = 0%nat) as -> by lia. simpl.
    destruct (decide (startpos < 0)%nat); [lia|]. by eexists.
  - simpl. case_decide as Hpos; [|by eexists].
    assert (0 < pos)%nat as Hpos0 by lia.
    pose proof (parent_of_lt pos Hpos0) as Hpp.
    destruct (lookup_lt_is_Some_2 h (parent_of pos)) as [par Hpar]; [lia|].
    rewrite Hpar. simpl.
    destruct (lt newitem par); [|by eexists].
    destruct (IH (<[pos := par]> h) (parent_of pos) newitem startpos)
      as (h' & Hrun & Hperm); [lia|rewrite length_insert; lia|].
    exists h'. split; [done|].
    rewrite Hperm. apply hole_move; [done|lia|done].
Qed.

Lemma siftdown_total (h : list T) startpos pos :
  (pos < length h)%nat → ∃ h', _siftdown lt h startpos pos = Some h' ∧ h' ≡ₚ h.
Proof.
  intros Hlen. unfold _siftdown.
  destruct (lookup_lt_is_Some_2 h pos Hlen) as [x Hx]. rewrite Hx. simpl.
  destruct (siftdown_loop_total pos h pos x startpos) as (h' & -> & Hperm);
    [done..|].
  exists h'. split; [done|]. by rewrite Hperm, list_insert_id.
Qed.

Lemma heappush_total (h : list T) item :
  ∃ h', heappush lt h item = Some h' ∧ h' ≡ₚ item :: h.
Proof.
  unfold heappush.
  destruct (siftdown_total (h ++ [item]) 0 (length (h ++ [item]) - 1))
    as (h' & -> & Hperm).
  { rewrite length_app. simpl. lia. }
  exists h'. split; [done|].
  rewrite Hperm. symmetry. apply Permutation_cons_append.
Qed.
End heapq_total.

(** The heap order, for a comparison that is asymmetric and whose negation
    is transitive (a strict weak order). *)
Section heapq_order.
Context {T : Type} (lt : T → T → bool).
Local Open Scope nat_scope.
Hypothesis lt_asym : ∀ x y, lt x y = true → lt y x = false.
Hypothesis lt_negtrans :
  ∀ x y z, lt y x = false → lt z y = false → lt z x = false.

Lemma lt_irrefl x : lt x x = false.
Proof. destruct (lt x x) eqn:E; [|done]. by rewrite (lt_asym _ _ E) in E. Qed.

Lemma heap_ok_edges h pos : heap_ok lt h → edges_ok lt h pos.
Proof. intros H i x p ? _ _. by apply H. Qed.

Lemma heap_ok_grand h pos : heap_ok lt h → grand_ok lt h pos.
Proof.
  intros H c x g Hc Hpos Hpc Hx Hg.
  assert (Hlen : pos < length h).
  { apply lookup_lt_Some in Hx. pose proof (parent_of_lt c Hc). lia. }
  destruct (lookup_lt_is_Some_2 h pos Hlen) as [m Hm].
  apply (lt_negtrans _ m).
  - by apply (H pos).
  - apply (H c); [done..|]. by rewrite Hpc.
Qed.

Lemma place_ok h pos newitem :
  pos < length h → edges_ok lt h pos → below_ok lt newitem h pos →
  (pos = 0 ∨ ∃ p, h !! parent_of pos = Some p ∧ lt newitem p = false) →
  heap_ok lt (<[pos := newitem]> h).
Proof.
  intros Hlen HE HB Hup i x p Hi Hx Hp.
  destruct (decide (i = pos)) as [->|Hne].
  - rewrite list_lookup_insert_eq in Hx by done. simplify_eq.
    pose proof (parent_of_lt pos Hi).
    rewrite list_lookup_insert_ne in Hp by lia.
    destruct Hup as [->|(q & Hq & Hlt)]; [lia|]. congruence.
  - rewrite list_lookup_insert_ne in Hx by done.
    destruct (decide (parent_of i = pos)) as [Hpar|Hpar].
    + rewrite Hpar, list_lookup_insert_eq in Hp by done. simplify_eq.
      by apply (HB i).
    + rewrite list_lookup_insert_ne in Hp by done. by apply (HE i).
Qed.

Lemma siftdown_loop_spec fuel : ∀ h pos newitem,
  pos ≤ fuel → pos < length h →
  edges_ok lt h pos → grand_ok lt h pos → below_ok lt newitem h pos →
  ∃ h', _siftdown_loop lt fuel h newitem 0 pos = Some h'
        ∧ heap_ok lt h' ∧ h' ≡ₚ <[pos := newitem]> h.
Proof.
  induction fuel as [|fuel IH]; intros h pos newitem Hfuel Hlen HE HG HB.
  - assert (pos = 0) as -> by lia. simpl.
    eexists; split; [done|]. split; [|done].
    apply place_ok; auto.
  - simpl. case_decide as Hpos.
    2:{ eexists; split; [done|]. split; [|done].
        apply place_ok; auto. left; lia. }
    pose proof (parent_of_lt pos Hpos) as Hpp.
    destruct (lookup_lt_is_Some_2 h (parent_of pos)) as [par Hpar]; [lia|].
    rewrite Hpar. simpl.
    destruct (lt newitem par) eqn:Hlt.
    2:{ eexists; split; [done|]. split; [|done].
        apply place_ok; eauto. }
    destruct (IH (<[pos := par]> h) (parent_of pos) newitem) as (h' & Hrun & Hok & Hperm).
    + lia.
    + rewrite length_insert. lia.
    + (* edges *)
      intros i x p Hi Hne Hpne Hx Hp.
      assert (i ≠ pos) by (intros ->; done).
      rewrite list_lookup_insert_ne in Hx by done.
      destruct (decide (parent_of i = pos)) as [Hip|Hip].
      * rewrite Hip, list_lookup_insert_eq in Hp by done. simplify_eq.
        by apply (HG i).
      * rewrite list_lookup_insert_ne in Hp by done. by apply (HE i).
    + (* grand *)
      intros c x g Hc Hpp0 Hcp Hx Hg.
      pose proof (parent_of_lt _ Hpp0) as Hgp.
      rewrite list_lookup_insert_ne in Hg by lia.
      assert (Hparg : lt par g = false).
      { apply (HE (parent_of pos)); [done|lia|lia|done..]. }
      destruct (decide (c = pos)) as [->|Hcne].
      * rewrite list_lookup_insert_eq in Hx by done. by simplify_eq.
      * rewrite list_lookup_insert_ne in Hx by done.
        apply (lt_negtrans _ par); [done|].
        apply (HE c); [done|done|lia|done|]. by rewrite Hcp.
    + (* below *)
      intros c x Hc Hcp Hx.
      destruct (decide (c = pos)) as [->|Hcne].
      * rewrite list_lookup_insert_eq in Hx by done. simplify_eq. by apply lt_asym.
      * rewrite list_lookup_insert_ne in Hx by done.
        apply (lt_negtrans _ par); [by apply lt_asym|].
        apply (HE c); [done|done|lia|done|]. by rewrite Hcp.
    + exists h'. split; [done|]. split; [done|].
      rewrite Hperm. apply hole_move; [done|lia|done].
Qed.

Lemma smaller_child_spec (h : list T) pos :
  2 * pos + 1 < length h →
  ∃ c m,
    (if decide (2 * pos + 1 + 1 < length h) then
       l ← h !! (2 * pos + 1);
       r ← h !! (2 * pos + 1 + 1);
       Some (if negb (lt l r) then 2 * pos + 1 + 1 else 2 * pos + 1)
     else Some (2 * pos + 1)) = Some c
    ∧ h !! c = Some m ∧ 0 < c ∧ parent_of c = pos
    ∧ ∀ s y, 0 < s → parent_of s = pos → h !! s = Some y → lt y m = false.
Proof.
  intros Hc.
  destruct (lookup_lt_is_Some_2 h (2 * pos + 1) Hc) as [l Hl].
  assert (Hpl : parent_of (2 * pos + 1) = pos) by (apply parent_of_child; lia).
  assert (Hpr : parent_of (2 * pos + 1 + 1) = pos) by (apply parent_of_child; lia).
  case_decide as Hr.
  - destruct (lookup_lt_is_Some_2 h (2 * pos + 1 + 1) Hr) as [r Hrr].
    rewrite Hl, Hrr. simpl.
    destruct (lt l r) eqn:Hlt; simpl.
    + exists (2 * pos + 1), l. repeat split; [done|lia|done|].
      intros s y Hs Hps Hy. apply parent_of_child in Hps; [|done]. destruct Hps as [->| ->].
      * simplify_eq. apply lt_irrefl.
      * replace (2 * pos + 2) with (2 * pos + 1 + 1) in Hy by lia.
        simplify_eq. by apply lt_asym.
    + exists (2 * pos + 1 + 1), r. repeat split; [done|lia|done|].
      intros s y Hs Hps Hy. apply parent_of_child in Hps; [|done]. destruct Hps as [->| ->].
      * by simplify_eq.
      * replace (2 * pos + 2) with (2 * pos + 1 + 1) in Hy by lia.
        simplify_eq. apply lt_irrefl.
  - exists (2 * pos + 1), l. repeat split; [done|lia|done|].
    intros s y Hs Hps Hy. apply parent_of_child in Hps; [|done]. destruct Hps as [->| ->].
    + simplify_eq. apply lt_irrefl.
    + apply lookup_lt_Some in Hy. lia.
Qed.

Lemma siftup_loop_spec fuel : ∀ h endpos pos,
  endpos = length h → endpos ≤ fuel + pos → pos < length h →
  edges_ok lt h pos → grand_ok lt h pos →
  ∃ h' pos', _siftup_loop lt fuel h endpos pos = Some (h', pos')
    ∧ length h' = length h ∧ pos' < length h ∧ length h ≤ 2 * pos' + 1
    ∧ edges_ok lt h' pos' ∧ grand_ok lt h' pos'
    ∧ ∀ v, <[pos' := v]> h' ≡ₚ <[pos := v]> h.
Proof.
  induction fuel as [|fuel IH]; intros h endpos pos -> Hfuel Hlen HE HG.
  - rewrite siftup_loop_unfold. case_decide; [lia|].
    exists h, pos. repeat split; auto; lia.
  - rewrite siftup_loop_unfold. case_decide as Hc.
    2:{ exists h, pos. repeat split; auto; lia. }
    destruct (smaller_child_spec h pos Hc) as (c & m & -> & Hm & Hc0 & Hcp & Hmin).
    cbn [mbind option_bind]. rewrite Hm. cbn [mbind option_bind].
    assert (Hcpos : pos < c) by (apply parent_of_child in Hcp; lia).
    pose proof (lookup_lt_Some _ _ _ Hm) as Hclen.
    destruct (IH (<[pos := m]> h) (length h) c) as
      (h' & pos' & Hrun & Hlen' & Hpos' & Hleaf & HE' & HG' & Hperm).
    + by rewrite length_insert.
    + lia.
    + by rewrite length_insert.
    + intros i x p Hi Hne Hpne Hx Hp.
      destruct (decide (i = pos)) as [Heq|Hipos].
      * subst i. rewrite list_lookup_insert_eq in Hx by done. injection Hx as <-.
        pose proof (parent_of_lt pos Hi).
        rewrite list_lookup_insert_ne in Hp by lia.
        by apply (HG c).
      * rewrite list_lookup_insert_ne in Hx by done.
        destruct (decide (parent_of i = pos)) as [Hip|Hip].
        -- rewrite Hip, list_lookup_insert_eq in Hp by done. injection Hp as <-.
           by apply (Hmin i).
        -- rewrite list_lookup_insert_ne in Hp by done. by apply (HE i).
    + intros d x g Hd _ Hdc Hx Hg.
      rewrite Hcp, list_lookup_insert_eq in Hg by done. injection Hg as <-.
      pose proof (parent_of_lt d Hd).
      rewrite list_lookup_insert_ne in Hx by lia.
      apply (HE d); [done|lia|lia|done|]. by rewrite Hdc.
    + rewrite length_insert in *.
      exists h', pos'. repeat split; auto.
      intros v. rewrite Hperm. apply hole_move; [done|lia|done].
Qed.

Lemma edges_ok_insert h pos v : edges_ok lt h pos → edges_ok lt (<[pos := v]> h) pos.
Proof.
  intros HE i x p Hi Hne Hpne Hx Hp.
  rewrite list_lookup_insert_ne in Hx, Hp by done. by apply (HE i).
Qed.

Lemma grand_ok_insert h pos v : grand_ok lt h pos → grand_ok lt (<[pos := v]> h) pos.
Proof.
  intros HG c x g Hc Hpos Hcp Hx Hg.
  pose proof (parent_of_lt c Hc). pose proof (parent_of_lt pos Hpos).
  rewrite list_lookup_insert_ne in Hx, Hg by lia. by apply (HG c).
Qed.

Lemma siftdown_spec h pos :
  pos < length h → edges_ok lt h pos → grand_ok lt h pos →
  (∀ x, h !! pos = Some x → below_ok lt x h pos) →
  ∃ h', _siftdown lt h 0 pos = Some h' ∧ heap_ok lt h' ∧ h' ≡ₚ h.
Proof.
  intros Hlen HE HG HB. unfold _siftdown.
  destruct (lookup_lt_is_Some_2 h pos Hlen) as [x Hx]. rewrite Hx. simpl.
  destruct (siftdown_loop_spec pos h pos x) as (h' & -> & Hok & Hperm); auto.
  exists h'. repeat split; auto. by rewrite Hperm, list_insert_id.
Qed.

Lemma siftup_spec h :
  0 < length h → edges_ok lt h 0 →
  ∃ h', _siftup lt h 0 = Some h' ∧ heap_ok lt h' ∧ h' ≡ₚ h.
Proof.
  intros Hlen HE. unfold _siftup.
  destruct (lookup_lt_is_Some_2 h 0 Hlen) as [x Hx]. rewrite Hx.
  cbn [mbind option_bind].
  destruct (siftup_loop_spec (length h) h (length h) 0)
    as (h1 & pos1 & -> & Hlen1 & Hpos1 & Hleaf & HE1 & HG1 & Hperm);
    [done|lia|done|done|intros c y g _ ?; lia|].
  cbn [mbind option_bind].
  destruct (siftdown_spec (<[pos1 := x]> h1) pos1) as (h' & -> & Hok & Hperm').
  - rewrite length_insert. lia.
  - by apply edges_ok_insert.
  - by apply grand_ok_insert.
  - intros y _ c z Hc Hcp Hz. apply lookup_lt_Some in Hz.
    rewrite length_insert in Hz. apply parent_of_child in Hcp; lia.
  - exists h'. repeat split; auto.
    by rewrite Hperm', Hperm, list_insert_id.
Qed.

Lemma heap_ok_app h t : heap_ok lt (h ++ t) → heap_ok lt h.
Proof.
  intros H i x p Hi Hx Hp. apply (H i); [done|..]; by apply lookup_app_l_Some.
Qed.

Lemma heappush_spec h item :
  heap_ok lt h →
  ∃ h', heappush lt h item = Some h' ∧ heap_ok lt h' ∧ h' ≡ₚ item :: h.
Proof.
  intros Hok. unfold heappush.
  assert (Hl : length (h ++ [item]) - 1 = length h).
  { rewrite length_app. simpl. lia. }
  rewrite Hl.
  destruct (siftdown_spec (h ++ [item]) (length h)) as (h' & -> & Hok' & Hperm).
  - rewrite length_app. simpl. lia.
  - intros i x p Hi Hne Hpne Hx Hp.
    pose proof (lookup_lt_Some _ _ _ Hx) as Hilen.
    rewrite length_app in Hilen; simpl in Hilen.
    pose proof (parent_of_lt i Hi).
    rewrite lookup_app_l in Hx, Hp by lia. by apply (Hok i).
  - intros c x g Hc Hpos Hcp Hx _. apply lookup_lt_Some in Hx.
    rewrite length_app in Hx; simpl in Hx. apply parent_of_child in Hcp; lia.
  - intros y _ c x Hc Hcp Hx. apply lookup_lt_Some in Hx.
    rewrite length_app in Hx; simpl in Hx. apply parent_of_child in Hcp; lia.
  - exists h'. repeat split; auto.
    rewrite Hperm. symmetry. apply Permutation_cons_append.
Qed.

Lemma heap_root_min h r :
  heap_ok lt h → h !! 0 = Some r → ∀ i x, h !! i = Some x → lt x r = false.
Proof.
  intros Hok Hr i. induction (Nat.lt_wf_0 i) as [i _ IH]. intros x Hx.
  destruct (decide (i = 0)) as [->|Hi].
  - simplify_eq. apply lt_irrefl.
  - assert (0 < i) as Hi0 by lia.
    pose proof (parent_of_lt i Hi0) as Hp.
    destruct (lookup_lt_is_Some_2 h (parent_of i)) as [p Hpp].
    { apply lookup_lt_Some in Hx. lia. }
    apply (lt_negtrans _ p); [by apply (IH (parent_of i))|by apply (Hok i)].
Qed.

Lemma heappop_spec h :
  heap_ok lt h → h ≠ [] →
  ∃ x h', heappop lt h = Some (x, h') ∧ heap_ok lt h' ∧ h ≡ₚ x :: h'
          ∧ ∀ y, y ∈ h → lt y x = false.
Proof.
  intros Hok Hne. unfold heappop.
  destruct (decide (h = [])) as [|_]; [done|].
  destruct h as [|a h0] using rev_ind; [done|]. clear IHh0 Hne.
  rewrite last_snoc. simpl.
  rewrite length_app. simpl. replace (length h0 + 1 - 1) with (length h0) by lia.
  rewrite take_app_length.
  pose proof (heap_ok_app _ _ Hok) as Hok0.
  destruct h0 as [|r h1].
  - exists a, []. split; [done|]. split; [|split; [done|]].
    + intros i x p _ Hx. by rewrite lookup_nil in Hx.
    + intros y Hy. apply list_elem_of_singleton in Hy as ->. apply lt_irrefl.
  - destruct (siftup_spec (<[0 := a]> (r :: h1))) as (h' & -> & Hok' & Hperm).
    + simpl. lia.
    + intros i x p Hi Hne Hpne Hx Hp.
      destruct i as [|i]; [lia|]. 
      destruct (parent_of (S i)) as [|q] eqn:Hq; [done|].
      simpl in Hx, Hp. apply (Hok0 (S i)); [lia|done|]. by rewrite Hq.
    + simpl. exists r, h'. split; [done|]. split; [done|]. split.
      * rewrite Hperm. simpl. f_equiv. symmetry. apply Permutation_cons_append.
      * intros y Hy. apply list_elem_of_lookup in Hy as [i Hi].
        by apply (heap_root_min ((r :: h1) ++ [a]) r Hok eq_refl i).
Qed.
End heapq_order.

(** ** The command order *)

Section command_order.
Context {ranks : CommandTypeValues}.

Lemma ChannelCommand_lt_false_le (x y : ChannelCommand.t) :
  ChannelCommand.__lt__ y x = false ↔ ChannelCommand_le x y.
Proof.
  unfold ChannelCommand.__lt__, ChannelCommand_le.
  destruct (Z.eqb_spec (CommandType_value (ChannelCommand.command_type y))
              (CommandType_value (ChannelCommand.command_type x))) as [E|E];
    simpl.
  - rewrite Qltb_ge. split; [intros; right; by split|].
    intros [?|[_ ?]]; [lia|done].
  - rewrite Z.ltb_ge. split; [intros; left; lia|].
    intros [?|[? _]]; [lia|congruence].
Qed.

Lemma ChannelCommand_lt_asym (x y : ChannelCommand.t) :
  ChannelCommand.__lt__ x y = true → ChannelCommand.__lt__ y x = false.
Proof.
  rewrite ChannelCommand_lt_false_le.
  unfold ChannelCommand.__lt__, ChannelCommand_le.
  destruct (Z.eqb_spec (CommandType_value (ChannelCommand.command_type x))
              (CommandType_value (ChannelCommand.command_type y))) as [E|E];
    simpl.
  - rewrite Qltb_lt. intros Hlt. right. split; [done|]. by apply Qlt_le_weak.
  - rewrite Z.ltb_lt. by left.
Qed.

Lemma ChannelCommand_le_trans (x y z : ChannelCommand.t) :
  ChannelCommand_le x y → ChannelCommand_le y z → ChannelCommand_le x z.
Proof.
  unfold ChannelCommand_le.
  intros [?|[? Hxy]] [?|[? Hyz]]; [left; lia..|].
  right. split; [lia|]. by eapply Qle_trans.
Qed.

Lemma ChannelCommand_lt_negtrans (x y z : ChannelCommand.t) :
  ChannelCommand.__lt__ y x = false → ChannelCommand.__lt__ z y = false →
  ChannelCommand.__lt__ z x = false.
Proof.
  rewrite !ChannelCommand_lt_false_le. apply ChannelCommand_le_trans.
Qed.

Lemma queue_put_ok (q : list ChannelCommand.t) item :
  heap_ok ChannelCommand.__lt__ q →
  heap_ok ChannelCommand.__lt__
    (default q (heappush ChannelCommand.__lt__ q item)).
Proof.
  intros Hok.
  destruct (heappush_spec _ ChannelCommand_lt_asym ChannelCommand_lt_negtrans
              q item Hok) as (q' & -> & Hok' & _).
  done.
Qed.

Lemma queue_get_ok (q : list ChannelCommand.t) :
  heap_ok ChannelCommand.__lt__ q →
  heap_ok ChannelCommand.__lt__
    (match heappop ChannelCommand.__lt__ q with
     | Some (_, q') => q'
     | None => q
     end).
Proof.
  intros Hok. destruct q as [|c q]; [done|].
  destruct (heappop_spec _ ChannelCommand_lt_asym ChannelCommand_lt_negtrans
              (c :: q) Hok) as (x & q' & -> & Hok' & _); done.
Qed.

Lemma queue_after_ok ops : ∀ q,
  heap_ok ChannelCommand.__lt__ q →
  heap_ok ChannelCommand.__lt__ (queue_after ops q).
Proof.
  induction ops as [|[item|] ops IH]; intros q Hok; simpl; [done|..].
  - apply IH. by apply queue_put_ok.
  - apply IH. by apply queue_get_ok.
Qed.

Lemma heap_ok_nil : heap_ok ChannelCommand.__lt__ [].
Proof. intros i x p _ Hx. by rewrite lookup_nil in Hx. Qed.

Lemma execute_command_queue self command :
  DGLabController.command_queue (DGLabController.execute_command self command).1
  = DGLabController.command_queue self.
Proof.
  unfold DGLabController.execute_command.
  destruct (ChannelCommand.operation command); simpl; try done.
  by destruct (ChannelCommand.channel command).
Qed.

Lemma dispatch_command_queue self current_time command :
  DGLabController.command_queue
    (DGLabController.dispatch_command self current_time command).1
  = DGLabController.command_queue self.
Proof.
  unfold DGLabController.dispatch_command.
  destruct (Qltb _ _); [done|].
  repeat match goal with
  | |- context [if ?b then _ else _] => destruct b
  end;
  try (destruct (DGLabController.execute_command _ command) as [s c] eqn:E;
       simpl;
       change s with (s, c).1; rewrite <-E, execute_command_queue);
  done.
Qed.

Lemma dispatch_command_taken self current_time command :
  DGLabController.taken
    (DGLabController.dispatch_command self current_time command).2 = command.
Proof.
  unfold DGLabController.dispatch_command.
  destruct (Qltb _ _); [done|].
  repeat match goal with
  | |- context [if ?b then _ else _] => destruct b
  end;
  try destruct (DGLabController.execute_command _ command); done.
Qed.

(** One turn takes the least waiting command and leaves the others. *)
Lemma process_commands_step_spec self current_time :
  heap_ok ChannelCommand.__lt__ (DGLabController.command_queue self) →
  DGLabController.command_queue self ≠ [] →
  ∃ self1 d,
    DGLabController.process_commands_step self current_time = Some (self1, d)
    ∧ heap_ok ChannelCommand.__lt__ (DGLabController.command_queue self1)
    ∧ DGLabController.command_queue self
        ≡ₚ DGLabController.taken d :: DGLabController.command_queue self1
    ∧ Forall (ChannelCommand_le (DGLabController.taken d))
        (DGLabController.command_queue self).
Proof.
  intros Hok Hne. unfold DGLabController.process_commands_step.
  destruct (heappop_spec _ ChannelCommand_lt_asym ChannelCommand_lt_negtrans
              _ Hok Hne) as (x & q' & -> & Hok' & Hperm & Hmin).
  simpl.
  destruct (DGLabController.dispatch_command _ current_time x) as [self1 d] eqn:E.
  exists self1, d. split; [done|].
  assert (DGLabController.command_queue self1 = q') as ->.
  { change self1 with (self1, d).1. by rewrite <-E, dispatch_command_queue. }
  assert (DGLabController.taken d = x) as ->.
  { change d with (self1, d).2. by rewrite <-E, dispatch_command_taken. }
  repeat split; [done..|].
  apply Forall_forall. intros y Hy.
  apply ChannelCommand_lt_false_le. by apply Hmin.
Qed.

Lemma process_commands_step_empty self current_time :
  DGLabController.command_queue self = [] →
  DGLabController.process_commands_step self current_time = None.
Proof.
  intros E. unfold DGLabController.process_commands_step. by rewrite E.
Qed.

Lemma process_commands_sorted clock : ∀ self,
  heap_ok ChannelCommand.__lt__ (DGLabController.command_queue self) →
  let ds := (DGLabController.process_commands self clock).2 in
  StronglySorted ChannelCommand_le (map DGLabController.taken ds)
  ∧ map DGLabController.taken ds ⊆+ DGLabController.command_queue self
  ∧ length ds
    = Nat.min (length clock) (length (DGLabController.command_queue self)).
Proof.
  induction clock as [|current_time clock IH]; intros self Hok; simpl.
  { split; [constructor|]. split; [apply submseteq_nil_l|done]. }
  destruct (decide (DGLabController.command_queue self = [])) as [E|Hne].
  { rewrite (process_commands_step_empty _ _ E), E. simpl.
    split; [constructor|]. split; [done|done]. }
  destruct (process_commands_step_spec self current_time Hok Hne)
    as (self1 & d & -> & Hok1 & Hperm & Hmin).
  destruct (IH self1 Hok1) as (Hsorted & Hsub & Hlen).
  destruct (DGLabController.process_commands self1 clock) as [self2 ds].
  simpl in *. split; [|split].
  - constructor; [done|].
    apply Forall_forall. intros c Hc.
    rewrite Forall_forall in Hmin. apply Hmin.
    rewrite Hperm. right. by eapply elem_of_submseteq.
  - rewrite Hperm. by apply submseteq_skip.
  - rewrite Hlen. apply Permutation_length in Hperm. rewrite Hperm. done.
Qed.
End command_order.

(** ** The dispatcher serves the queue in priority order *)

(** C1. Whatever was put into and taken from the command queue before,
    the dispatcher takes the waiting commands in non-decreasing class rank
    and, within a class, in non-decreasing timestamp order: the commands
    it takes form a sorted part of the queue, one per turn until the
    queue is empty, and each turn takes a command that is minimal among
    those waiting. *)
Theorem dispatcher_takes_commands_in_priority_order {ranks : CommandTypeValues}
    (ops : list QueueOp) (self : DGLabController.t) (clock : list Q)
    (current_time : Q) :
  let queue := queue_after ops [] in
  let self0 := DGLabController.set_command_queue queue self in
  let ds := (DGLabController.process_commands self0 clock).2 in
  StronglySorted ChannelCommand_le (map DGLabController.taken ds)
  ∧ map DGLabController.taken ds ⊆+ queue
  ∧ length ds = Nat.min (length clock) (length queue)
  ∧ match DGLabController.process_commands_step self0 current_time with
    | Some (self1, d) =>
        queue ≡ₚ DGLabController.taken d :: DGLabController.command_queue self1
        ∧ Forall (ChannelCommand_le (DGLabController.taken d)) queue
    | None => queue = []
    end.
Proof.
  intros queue self0 ds.
  assert (Hok : heap_ok ChannelCommand.__lt__
                  (DGLabController.command_queue self0)).
  { apply queue_after_ok, heap_ok_nil. }
  destruct (process_commands_sorted clock self0 Hok) as (Hsorted & Hsub & Hlen).
  repeat split; [done..|].
  destruct (decide (queue = [])) as [E|Hne].
  - by rewrite process_commands_step_empty.
  - destruct (process_commands_step_spec self0 current_time Hok Hne)
      as (self1 & d & -> & _ & Hperm & Hmin).
    done.
Qed.

(** The scenario of the specification, under the sample ranks: a GUI
    command and then a panel command for the same channel are submitted;
    the dispatcher executes the GUI command first. *)
Example gui_command_served_before_panel_command :
  (DGLabController.add_command (ranks := sample_ranks)
     DGLabController.__init__ 100 "u1" PANEL_COMMAND Channel_A SET_TO 5 None
   ≫= λ self1,
     DGLabController.add_command (ranks := sample_ranks) self1 (1001 # 10)
       "u2" GUI_COMMAND Channel_A SET_TO 30 None
   ≫= λ self2,
     Some (map DGLabController.calls
             (DGLabController.process_commands (ranks := sample_ranks) self2
                [101; 102; 103]%Q).2))
  = Some [[client_set_strength Channel_A SET_TO 30];
          [client_set_strength Channel_A SET_TO 5]].
Proof. reflexivity. Qed.

(** ** Relative strength changes stay within the channel limit *)

(** C7. With a known strength state whose limit for the channel is not
    negative, [adjust_strength] sends exactly one value to the transport,
    [max(0, min(limit, current + delta))], and that value lies in
    [[0, limit]] for every [delta]. *)
Theorem adjust_strength_within_limit (self : DGLabController.t)
    (ls : StrengthData.t) (channel : Channel) (delta : Z) :
  DGLabController.last_strength self = Some ls →
  0 ≤ channel_limit ls channel →
  ∃ v,
    DGLabController.adjust_strength self channel delta
      = [client_set_strength channel SET_TO v]
    ∧ v = Z.max 0 (Z.min (channel_limit ls channel)
                     (channel_strength ls channel + delta))
    ∧ 0 ≤ v ≤ channel_limit ls channel.
Proof.
  intros Hls Hlimit. unfold DGLabController.adjust_strength. rewrite Hls.
  destruct channel; simpl in *; eexists; (split; [done|]); split; [done|lia|done|lia].
Qed.

Lemma adjust_strength_within_limit_witness :
  ∃ v,
    DGLabController.adjust_strength
      (DGLabController.update_strength (StrengthData.mk 10 20 100 50)
         DGLabController.__init__) Channel_B 1000
      = [client_set_strength Channel_B SET_TO v]
    ∧ v = Z.max 0 (Z.min 50 (20 + 1000))
    ∧ 0 ≤ v ≤ 50.
Proof.
  apply (adjust_strength_within_limit
           (DGLabController.update_strength (StrengthData.mk 10 20 100 50)
              DGLabController.__init__)
           (StrengthData.mk 10 20 100 50) Channel_B 1000).
  - reflexivity.
  - simpl. lia.
Defined.

(** Whatever the reported limit, the value sent is never negative and
    never above a non-negative limit. *)
Lemma adjust_strength_value_bounds (limit current delta : Z) :
  0 ≤ Z.max 0 (Z.min limit (current + delta)) ≤ Z.max 0 limit.
Proof. lia. Qed.

(** Without a strength state nothing is sent. *)
Lemma adjust_strength_without_state (self : DGLabController.t) channel delta :
  DGLabController.last_strength self = None →
  DGLabController.adjust_strength self channel delta = [].
Proof. intros E. unfold DGLabController.adjust_strength. by rewrite E. Qed.

(** ** The cooldown gate of [add_command] *)

Lemma Qle_bool_Qltb (x y : Q) : Qle_bool x y = negb (Qltb y x).
Proof. unfold Qle_bool, Qltb. apply Z.leb_antisym. Qed.

Lemma py_or_float_same (now : Q) : py_or_float (Some now) now = now.
Proof. unfold py_or_float. by destruct (Qeq_bool now 0). Qed.

Lemma source_key_eq (c : CommandType) (s1 s2 : option string) :
  py_or_str s1 "default" = py_or_str s2 "default" →
  DGLabController.source_key c s1 = DGLabController.source_key c s2.
Proof. unfold DGLabController.source_key. by intros ->. Qed.


Lemma add_command_result {ranks : CommandTypeValues}
    (self : DGLabController.t) (now : Q) (uuid4 : string)
    (command_type : CommandType) (channel : Channel)
    (operation : StrengthOperationType) (value : Z)
    (source_id : option string) :
  let key := DGLabController.source_key command_type source_id in
  ∃ self1,
    DGLabController.add_command self now uuid4 command_type channel operation
      value source_id = Some self1
    ∧ if cooldown_allows (DGLabController.command_sources self) key
           (DGLabController.source_cooldowns command_type) now
      then
        DGLabController.command_sources self1
          = <[key := now]> (DGLabController.command_sources self)
        ∧ DGLabController.command_queue self1
            ≡ₚ ChannelCommand.mk command_type channel operation value
                 (py_or_str source_id uuid4) now
               :: DGLabController.command_queue self
        ∧ DGLabController.last_strength self1
          = DGLabController.last_strength self
      else self1 = self.
Proof.
  intros key. unfold DGLabController.add_command, cooldown_allows. fold key.
  destruct (heappush_total ChannelCommand.__lt__
              (DGLabController.command_queue self)
              (ChannelCommand.__init__ uuid4 now command_type channel
                 operation value source_id (Some now)))
    as (queue & Hpush & Hperm).
  unfold ChannelCommand.__init__ in Hperm. rewrite py_or_float_same in Hperm.
  destruct (DGLabController.command_sources self !! key) as [last_time|] eqn:E.
  - rewrite Qle_bool_Qltb.
    destruct (Qltb (now - last_time) _); simpl; [by eexists|].
    rewrite Hpush. simpl. eexists. split; [done|]. by simpl.
  - simpl. rewrite Hpush. simpl. eexists. split; [done|]. by simpl.
Qed.








(** ** The cooldown check of the dispatcher *)

Lemma dispatch_command_skip_spec (self : DGLabController.t) (current_time : Q)
    (command : ChannelCommand.t) :
  let last_command_time :=
    default 0%Q (DGLabController.command_sources self
                 !! ChannelCommand.source_id command) in
  let d := (DGLabController.dispatch_command self current_time command).2 in
  DGLabController.skipped d
    = Qltb (current_time - last_command_time)
        (DGLabController.source_cooldowns (ChannelCommand.command_type command))
  ∧ (DGLabController.skipped d = true →
     DGLabController.calls d = []
     ∧ (DGLabController.dispatch_command self current_time command).1 = self).
Proof.
  unfold DGLabController.dispatch_command. simpl.
  destruct (Qltb _ _); [done|].
  repeat match goal with
  | |- context [if ?b then _ else _] => destruct b
  end;
  try destruct (DGLabController.execute_command _ command); done.
Qed.

(** The state after a first panel submission of source ["s"] at time 10
    is [panel_submitted]. *)
Example panel_submitted_reached :
  DGLabController.add_command (ranks := sample_ranks) DGLabController.__init__
    10 "u1" PANEL_COMMAND Channel_A SET_TO 5 (Some "s") = Some panel_submitted.
Proof. reflexivity. Qed.

Example panel_submitted_dispatch :
  DGLabController.process_commands_step (ranks := sample_ranks) panel_submitted
    (1001 # 100)
  = Some
      (DGLabController.mk None 0 0 []
         (<["s" := (1001 # 100)%Q]> {["PANEL_COMMAND_s" := 10%Q]})
         true true true false false,
       DGLabController.mk_dispatch
         (ChannelCommand.mk PANEL_COMMAND Channel_A SET_TO 5 "s" 10)
         false [client_set_strength Channel_A SET_TO 5]).
Proof. reflexivity. Qed.

(** C5, as stated, fails: a panel command of source ["s"] accepted at
    time 10 leaves the ledger entry of the pair at 10; dispatched at time
    10.01, well inside the 0.1 s cooldown of its pair, it is executed and
    not skipped, because the dispatcher reads the entry kept under the
    bare source id. *)
Lemma dispatcher_ignores_pair_cooldown :
  ¬ (∀ (self self1 : DGLabController.t) (current_time last_accepted : Q)
       (d : DGLabController.Dispatch),
       DGLabController.process_commands_step (ranks := sample_ranks) self
         current_time = Some (self1, d) →
       DGLabController.command_sources self
         !! DGLabController.source_key
              (ChannelCommand.command_type (DGLabController.taken d))
              (Some (ChannelCommand.source_id (DGLabController.taken d)))
         = Some last_accepted →
       Qltb (current_time - last_accepted)
         (DGLabController.source_cooldowns
            (ChannelCommand.command_type (DGLabController.taken d))) = true →
       DGLabController.skipped d = true).
Proof.
  intros Hclaim.
  specialize (Hclaim panel_submitted _ (1001 # 100)%Q 10%Q _
                panel_submitted_dispatch).
  simpl in Hclaim.
  discriminate (Hclaim eq_refl eq_refl).
Qed.

(** C5, amended. Before executing a command taken from the queue, the
    dispatcher checks a cooldown in the dictionary that [add_command]
    also writes, but under the source id of the command alone, with 0 for
    a missing entry: the command is skipped exactly when the time since
    that entry is below the cooldown of its class, and a skipped command
    causes no transport call and changes nothing but the queue. *)
Theorem dispatcher_rechecks_source_cooldown {ranks : CommandTypeValues}
    (self self1 : DGLabController.t) (current_time : Q)
    (d : DGLabController.Dispatch) :
  DGLabController.process_commands_step self current_time = Some (self1, d) →
  let command := DGLabController.taken d in
  let last_command_time :=
    default 0%Q (DGLabController.command_sources self
                 !! ChannelCommand.source_id command) in
  DGLabController.skipped d
    = Qltb (current_time - last_command_time)
        (DGLabController.source_cooldowns (ChannelCommand.command_type command))
  ∧ (DGLabController.skipped d = true →
     DGLabController.calls d = []
     ∧ self1 = DGLabController.set_command_queue
                 (DGLabController.command_queue self1) self).
Proof.
  unfold DGLabController.process_commands_step. intros Hstep.
  destruct (heappop _ _) as [[command queue]|]; [|done].
  simpl in Hstep. injection Hstep as Hstep.
  pose proof (dispatch_command_skip_spec
                (DGLabController.set_command_queue queue self)
                current_time command) as Hskip.
  pose proof (dispatch_command_taken
                (DGLabController.set_command_queue queue self)
                current_time command) as Htaken.
  rewrite Hstep in Hskip, Htaken. simpl in Hskip, Htaken. subst command.
  destruct Hskip as [Hskip Hsame]. split; [exact Hskip|].
  intros Hs. destruct (Hsame Hs) as [Hcalls ->]. done.
Qed.

Lemma dispatcher_rechecks_source_cooldown_witness :
  let self1 :=
    DGLabController.mk None 0 0 []
      (<["s" := (1001 # 100)%Q]> {["PANEL_COMMAND_s" := 10%Q]})
      true true true false false in
  let d :=
    DGLabController.mk_dispatch
      (ChannelCommand.mk PANEL_COMMAND Channel_A SET_TO 5 "s" 10)
      false [client_set_strength Channel_A SET_TO 5] in
  DGLabController.process_commands_step (ranks := sample_ranks) panel_submitted
    (1001 # 100) = Some (self1, d)
  ∧ DGLabController.skipped d
    = Qltb ((1001 # 100)
            - default 0%Q (DGLabController.command_sources panel_submitted !! "s"))
        (DGLabController.source_cooldowns PANEL_COMMAND)
  ∧ (DGLabController.skipped d = true →
     DGLabController.calls d = []
     ∧ self1 = DGLabController.set_command_queue
                 (DGLabController.command_queue self1) panel_submitted).
Proof.
  intros self1 d. split; [reflexivity|].
  apply (dispatcher_rechecks_source_cooldown (ranks := sample_ranks)
           panel_submitted self1 (1001 # 100) d).
  reflexivity.
Defined.

(** ** The ledger entry written by the dispatcher *)

(** C10. The dispatcher writes the ledger entry of the command's source
    id before it looks at the class toggle and the interaction mode of the
    channel.  A command that passes the cooldown check and is then dropped
    because its toggle or mode is off causes no transport call, yet sets
    the entry of its source id to the dispatch time; any later command
    with the same source id that is dispatched within the cooldown of its
    own class is then skipped. *)
Theorem dropped_command_refreshes_source_entry (self : DGLabController.t)
    (current_time : Q) (command : ChannelCommand.t) :
  Qltb (current_time
        - default 0%Q (DGLabController.command_sources self
                       !! ChannelCommand.source_id command))
    (DGLabController.source_cooldowns (ChannelCommand.command_type command))
    = false →
  toggled_off self command = true →
  let self1 := (DGLabController.dispatch_command self current_time command).1 in
  let d := (DGLabController.dispatch_command self current_time command).2 in
  DGLabController.skipped d = false
  ∧ DGLabController.calls d = []
  ∧ self1 = DGLabController.set_command_sources
              (<[ChannelCommand.source_id command := current_time]>
                 (DGLabController.command_sources self)) self
  ∧ ∀ (later_time : Q) (later : ChannelCommand.t),
      ChannelCommand.source_id later = ChannelCommand.source_id command →
      Qltb (later_time - current_time)
        (DGLabController.source_cooldowns (ChannelCommand.command_type later))
        = true →
      DGLabController.dispatch_command self1 later_time later
      = (self1, DGLabController.mk_dispatch later true []).
Proof.
  intros Hpass Hoff self1 d.
  assert (Hrun : DGLabController.dispatch_command self current_time command
                 = (DGLabController.set_command_sources
                      (<[ChannelCommand.source_id command := current_time]>
                         (DGLabController.command_sources self)) self,
                    DGLabController.mk_dispatch command false [])).
  { unfold DGLabController.dispatch_command. rewrite Hpass.
    unfold toggled_off in Hoff. simpl.
    destruct (ChannelCommand.command_type command); simpl in *;
      try discriminate.
    - by destruct (DGLabController.enable_gui_commands self).
    - by destruct (DGLabController.enable_panel_commands self).
    - destruct (DGLabController.enable_interaction_commands self); [|done].
      simpl in *.
      destruct (ChannelCommand.channel command); simpl in *;
        [destruct (DGLabController.enable_interaction_mode_a self)
        |destruct (DGLabController.enable_interaction_mode_b self)];
        simpl in *; try discriminate; done. }
  subst self1 d. rewrite Hrun. simpl.
  repeat split.
  intros later_time later Hsame Hlt.
  unfold DGLabController.dispatch_command.
  cbn [DGLabController.command_sources DGLabController.set_command_sources].
  rewrite Hsame, lookup_insert_eq.
  cbn [default from_option]. unfold id. by rewrite Hlt.
Qed.

Lemma dropped_command_refreshes_source_entry_witness :
  let self :=
    DGLabController.set_toggles true false true false false
      DGLabController.__init__ in
  let command := ChannelCommand.mk PANEL_COMMAND Channel_A SET_TO 5 "s" 10 in
  let later := ChannelCommand.mk TON_COMMAND Channel_B INCREASE 3 "s" 11 in
  let self1 := (DGLabController.dispatch_command self 12 command).1 in
  DGLabController.calls (DGLabController.dispatch_command self 12 command).2 = []
  ∧ DGLabController.command_sources self1 !! "s" = Some 12%Q
  ∧ DGLabController.dispatch_command self1 (121 # 10) later
    = (self1, DGLabController.mk_dispatch later true []).
Proof.
  intros self command later self1.
  destruct (dropped_command_refreshes_source_entry self 12 command)
    as (_ & Hcalls & Hself1 & Hlater).
  - reflexivity.
  - reflexivity.
  - split; [exact Hcalls|]. split; [reflexivity|].
    apply Hlater; reflexivity.
Defined.

(** ** The event bus dispatches in ascending priority *)

Lemma StronglySorted_filter {T} (R : relation T) (P : T → Prop)
    `{∀ x, Decision (P x)} (l : list T) :
  StronglySorted R l → StronglySorted R (filter P l).
Proof.
  induction 1 as [|x l Hl IH Hx]; [constructor|].
  rewrite filter_cons. case_decide; [|done].
  constructor; [done|].
  apply Forall_forall. intros y Hy.
  apply list_elem_of_filter in Hy as [_ Hy].
  rewrite Forall_forall in Hx. by apply Hx.
Qed.

Lemma EventHandler_lt_le (x y : EventHandler.t) :
  EventHandler.__lt__ x y = false ↔ EventHandler_le y x.
Proof. unfold EventHandler.__lt__, EventHandler_le. apply Z.ltb_ge. Qed.

Lemma sort_insert_elem_of (x y : EventHandler.t) l :
  y ∈ sort_insert EventHandler.__lt__ x l ↔ y = x ∨ y ∈ l.
Proof.
  induction l as [|z l IH]; simpl.
  - rewrite list_elem_of_singleton, elem_of_nil. tauto.
  - destruct (EventHandler.__lt__ x z).
    + by rewrite elem_of_cons.
    + rewrite !elem_of_cons, IH. tauto.
Qed.

Lemma sort_insert_sorted (x : EventHandler.t) l :
  StronglySorted EventHandler_le l →
  StronglySorted EventHandler_le (sort_insert EventHandler.__lt__ x l).
Proof.
  induction 1 as [|z l Hl IH Hz]; simpl.
  - repeat constructor.
  - destruct (EventHandler.__lt__ x z) eqn:Hlt.
    + assert (EventHandler_le x z) as Hxz.
      { unfold EventHandler.__lt__ in Hlt. apply Z.ltb_lt in Hlt.
        unfold EventHandler_le. lia. }
      constructor; [by constructor|].
      constructor; [done|].
      eapply Forall_impl; [exact Hz|].
      intros w Hw. unfold EventHandler_le in *. lia.
    + constructor; [done|].
      apply Forall_forall. intros w Hw.
      apply sort_insert_elem_of in Hw as [->|Hw].
      * by apply EventHandler_lt_le.
      * rewrite Forall_forall in Hz. by apply Hz.
Qed.

Lemma list_sort_sorted (l : list EventHandler.t) :
  StronglySorted EventHandler_le (list_sort EventHandler.__lt__ l).
Proof.
  unfold list_sort.
  assert (∀ acc, StronglySorted EventHandler_le acc →
                 StronglySorted EventHandler_le
                   (foldl (λ acc x, sort_insert EventHandler.__lt__ x acc) acc l))
    as Hgen.
  { induction l as [|x l IH]; intros acc Hacc; simpl; [done|].
    by apply IH, sort_insert_sorted. }
  apply Hgen. constructor.
Qed.

Lemma remove_handler_sorted event_handlers event_name handler :
  (∀ n hs, event_handlers !! n = Some hs → StronglySorted EventHandler_le hs) →
  ∀ n hs,
    EventManager.remove_handler event_handlers event_name handler !! n = Some hs →
    StronglySorted EventHandler_le hs.
Proof.
  intros Hsorted n hs. unfold EventManager.remove_handler.
  destruct (event_handlers !! event_name) as [handlers|] eqn:E; [|by apply Hsorted].
  pose proof (StronglySorted_filter EventHandler_le
                (λ h, EventHandler.handler h ≠ handler) handlers
                (Hsorted _ _ E)) as Hkept.
  destruct (filter _ handlers) as [|k kept].
  - rewrite lookup_delete. case_decide; [done|]. by apply Hsorted.
  - rewrite lookup_insert. case_decide; [|by apply Hsorted].
    intros [= <-]. done.
Qed.

Lemma remove_recorded_sorted (recorded : list (string * EventHandler.t)) :
  ∀ event_handlers,
    (∀ n hs, event_handlers !! n = Some hs → StronglySorted EventHandler_le hs) →
    ∀ n hs,
      foldl
        (λ acc item,
           EventManager.remove_handler acc (split_head "_"%char item.1)
             (EventHandler.handler item.2))
        event_handlers recorded !! n = Some hs →
      StronglySorted EventHandler_le hs.
Proof.
  induction recorded as [|item recorded IH]; intros m Hm; simpl; [exact Hm|].
  apply IH. intros n hs. by apply remove_handler_sorted.
Qed.

Lemma bus_apply_sorted (self : EventManager.t) (op : BusOp) :
  handlers_sorted self → handlers_sorted (bus_apply self op).
Proof.
  intros Hsorted. destruct op as [event_name handler priority plugin
                                 |event_name handler|plugin]; simpl.
  - assert (∀ n hs,
      <[event_name :=
          list_sort EventHandler.__lt__
            (default [] (EventManager._event_handlers self !! event_name)
             ++ [EventHandler.mk handler priority plugin])]>
        (EventManager._event_handlers self) !! n = Some hs →
      StronglySorted EventHandler_le hs) as Hnew.
    { intros n hs. rewrite lookup_insert. case_decide; [|by apply Hsorted].
      intros [= <-]. apply list_sort_sorted. }
    unfold EventManager.register_event_handler. by destruct plugin.
  - intros n hs. by apply remove_handler_sorted.
  - unfold EventManager.unregister_plugin_events.
    destruct (EventManager._plugin_events self !! plugin) as [recorded|];
      [|done].
    intros n hs. simpl. by apply remove_recorded_sorted.
Qed.

Lemma bus_after_sorted (ops : list BusOp) : handlers_sorted (bus_after ops).
Proof.
  unfold bus_after.
  assert (∀ self, handlers_sorted self → handlers_sorted (foldl bus_apply self ops))
    as Hgen.
  { induction ops as [|op ops IH]; intros self Hself; simpl; [done|].
    by apply IH, bus_apply_sorted. }
  apply Hgen. intros n hs. simpl. by rewrite lookup_empty.
Qed.

Lemma dispatch_prefix code handlers : ∀ event,
  (EventManager.dispatch code handlers event).2 `prefix_of` handlers.
Proof.
  induction handlers as [|h handlers IH]; intros event; simpl; [done|].
  destruct (Event.is_cancelled event); [apply prefix_nil|].
  specialize (IH (if cancels (code (EventHandler.handler h) event)
                  then Event.cancel event else event)).
  destruct (EventManager.dispatch code handlers _) as [event2 invoked].
  simpl in *. by apply prefix_cons.
Qed.

Lemma dispatch_cancelled code handlers event :
  Event.is_cancelled event = true →
  EventManager.dispatch code handlers event = (event, []).
Proof. intros E. destruct handlers; simpl; [done|]. by rewrite E. Qed.

(** Handlers that do not cancel are all invoked and leave the event as
    it is. *)
Lemma dispatch_no_cancel code handlers event :
  Event.is_cancelled event = false →
  (∀ h, h ∈ handlers → cancels (code (EventHandler.handler h) event) = false) →
  EventManager.dispatch code handlers event = (event, handlers).
Proof.
  intros Hev. induction handlers as [|h handlers IH]; intros Hquiet; simpl;
    [done|].
  rewrite Hev, (Hquiet h) by set_solver.
  rewrite IH by (intros; apply Hquiet; set_solver). done.
Qed.

(** The first handler that cancels is the last one invoked. *)
Lemma dispatch_cut code before h after event :
  Event.is_cancelled event = false →
  (∀ h', h' ∈ before → cancels (code (EventHandler.handler h') event) = false) →
  cancels (code (EventHandler.handler h) event) = true →
  EventManager.dispatch code (before ++ h :: after) event
  = (Event.cancel event, before ++ [h]).
Proof.
  intros Hev. induction before as [|b before IH]; intros Hquiet Hcancel; simpl.
  - rewrite Hev, Hcancel. by rewrite dispatch_cancelled.
  - rewrite Hev, (Hquiet b) by set_solver.
    rewrite IH; [done| |done]. intros; apply Hquiet; set_solver.
Qed.

Lemma emit_named_calls (self : EventManager.t) code event_name kwargs :
  EventManager.named_calls (EventManager.emit self code event_name kwargs)
  = (EventManager.dispatch code
       (default [] (EventManager._event_handlers self !! event_name))
       (Event.__init__ event_name kwargs)).2.
Proof.
  unfold EventManager.emit.
  destruct (EventManager._event_handlers self !! event_name) as [hs|]; simpl.
  - destruct (EventManager.dispatch code hs _) as [event1 named].
    by destruct (EventManager._event_handlers self !! "*") as [ws|];
      [destruct (EventManager.dispatch code ws event1)|].
  - by destruct (EventManager._event_handlers self !! "*") as [ws|];
      [destruct (EventManager.dispatch code ws _)|].
Qed.

Lemma EventPriority_value_max (p : EventPriority) :
  EventPriority_value MONITOR ≤ EventPriority_value p → p = MONITOR.
Proof. destruct p; simpl; intros; try lia; done. Qed.

Example three_handlers_all_run :
  EventManager.named_calls
    (EventManager.emit (bus_after three_handlers) quiet_handlers "x" [])
  = [EventHandler.mk 3%N LOWEST None;
     EventHandler.mk 2%N NORMAL None;
     EventHandler.mk 1%N HIGHEST None].
Proof. reflexivity. Qed.

Example three_handlers_highest_cancels :
  EventManager.named_calls
    (EventManager.emit (bus_after three_handlers) handler_1_cancels "x" [])
  = [EventHandler.mk 3%N LOWEST None;
     EventHandler.mk 2%N NORMAL None;
     EventHandler.mk 1%N HIGHEST None].
Proof. reflexivity. Qed.

(** C2, as stated, fails: with handlers registered at Highest, Normal and
    Lowest priority and nobody cancelling, the Lowest handler is invoked
    first and the Highest one last. *)
Lemma highest_handler_is_not_first :
  ¬ (∀ (ops : list BusOp) (code : HandlerCode) (event_name : string)
       (kwargs : list (string * N)) (i j : nat) (h1 h2 : EventHandler.t),
       let calls :=
         EventManager.named_calls
           (EventManager.emit (bus_after ops) code event_name kwargs) in
       (i < j)%nat → calls !! i = Some h1 → calls !! j = Some h2 →
       EventHandler.priority h2 = HIGHEST →
       EventHandler.priority h1 = HIGHEST).
Proof.
  intros Hclaim.
  specialize (Hclaim three_handlers quiet_handlers "x" [] 0%nat 2%nat
                (EventHandler.mk 3%N LOWEST None)
                (EventHandler.mk 1%N HIGHEST None)).
  simpl in Hclaim. rewrite three_handlers_all_run in Hclaim.
  discriminate Hclaim; [lia|reflexivity..].
Qed.

(** C2, amended. For every emission, the handlers registered for the
    exact event name are invoked in ascending order of priority value:
    Lowest first, Highest last among the ordinary priorities, and
    Monitor-priority handlers strictly last, whatever the order of
    registration.  The handlers invoked are an initial part of the
    registered list, and all of it when no handler cancels. *)
Theorem emit_invokes_in_ascending_priority (ops : list BusOp)
    (code : HandlerCode) (event_name : string) (kwargs : list (string * N)) :
  let registered :=
    default [] (EventManager._event_handlers (bus_after ops) !! event_name) in
  let calls :=
    EventManager.named_calls
      (EventManager.emit (bus_after ops) code event_name kwargs) in
  calls `prefix_of` registered
  ∧ StronglySorted EventHandler_le calls
  ∧ (∀ before h after,
       calls = before ++ h :: after →
       EventHandler.priority h = MONITOR →
       Forall (λ h', EventHandler.priority h' = MONITOR) after)
  ∧ ((∀ h, h ∈ registered →
        cancels (code (EventHandler.handler h)
                   (Event.__init__ event_name kwargs)) = false) →
     calls = registered).
Proof.
  intros registered calls.
  assert (Hcalls : calls = (EventManager.dispatch code registered
                              (Event.__init__ event_name kwargs)).2)
    by apply emit_named_calls.
  assert (Hprefix : calls `prefix_of` registered).
  { rewrite Hcalls. apply dispatch_prefix. }
  assert (Hreg : StronglySorted EventHandler_le registered).
  { unfold registered.
    destruct (EventManager._event_handlers (bus_after ops) !! event_name)
      as [hs|] eqn:E; simpl; [|constructor].
    by eapply bus_after_sorted. }
  assert (Hsorted : StronglySorted EventHandler_le calls).
  { destruct Hprefix as [rest Hrest]. rewrite Hrest in Hreg.
    by eapply StronglySorted_app_1_l. }
  split; [done|]. split; [done|]. split.
  - intros before h after Heq Hmon. rewrite Heq in Hsorted.
    apply StronglySorted_app_1_r in Hsorted.
    apply StronglySorted_inv in Hsorted as [_ Hle].
    eapply Forall_impl; [exact Hle|].
    intros h' Hh'. apply EventPriority_value_max.
    unfold EventHandler_le in Hh'. by rewrite Hmon in Hh'.
  - intros Hquiet. rewrite Hcalls. by rewrite dispatch_no_cancel.
Qed.

Lemma emit_invokes_in_ascending_priority_witness :
  let ops :=
    [bus_register "x" 9%N MONITOR None; bus_register "x" 1%N HIGHEST None;
     bus_register "x" 3%N LOWEST None] in
  EventManager.named_calls
    (EventManager.emit (bus_after ops) quiet_handlers "x" [])
  = [EventHandler.mk 3%N LOWEST None; EventHandler.mk 1%N HIGHEST None;
     EventHandler.mk 9%N MONITOR None]
  ∧ Forall (λ h', EventHandler.priority h' = MONITOR) ([] : list EventHandler.t).
Proof.
  intros ops.
  destruct (emit_invokes_in_ascending_priority ops quiet_handlers "x" [])
    as (_ & _ & Hmonitor & Hall).
  split.
  - apply Hall. intros h _. reflexivity.
  - apply (Hmonitor [EventHandler.mk 3%N LOWEST None; EventHandler.mk 1%N HIGHEST None]
             (EventHandler.mk 9%N MONITOR None) []); reflexivity.
Defined.

(** ** Cancellation *)

(** C3, as stated, fails: in the scenario of the specification the
    Highest handler cancels, yet the Normal handler has been invoked in
    the same emission (it ran before the Highest one). *)
Lemma highest_cancel_comes_too_late :
  ¬ (∀ (ops : list BusOp) (code : HandlerCode) (event_name : string)
       (kwargs : list (string * N)) (h h' : EventHandler.t),
       let emission :=
         EventManager.emit (bus_after ops) code event_name kwargs in
       h ∈ EventManager.named_calls emission →
       EventHandler.priority h = HIGHEST →
       cancels (code (EventHandler.handler h)
                  (Event.__init__ event_name kwargs)) = true →
       h' ∈ EventManager.named_calls emission →
       EventPriority_value NORMAL
         < EventPriority_value (EventHandler.priority h')).
Proof.
  intros Hclaim.
  specialize (Hclaim three_handlers handler_1_cancels "x" []
                (EventHandler.mk 1%N HIGHEST None)
                (EventHandler.mk 2%N NORMAL None)).
  simpl in Hclaim. rewrite three_handlers_highest_cancels in Hclaim.
  assert (EventPriority_value NORMAL < EventPriority_value NORMAL) as Habs;
    [|lia].
  apply Hclaim; [|reflexivity|reflexivity|].
  - do 2 right. left.
  - right. left.
Qed.

(** C3, amended. When a handler cancels the event, the handlers after it
    in the dispatch order are not invoked in that emission, neither those
    of the event name, which have the same or a higher priority value,
    nor the wildcard handlers; the handlers before it, of the same or a
    lower priority value, have been invoked already.  With handlers at
    Highest, Normal and Lowest priority and the Highest one cancelling,
    the observed call order is Lowest, Normal, Highest. *)
Theorem cancellation_stops_later_handlers (ops : list BusOp)
    (code : HandlerCode) (event_name : string) (kwargs : list (string * N))
    (before : list EventHandler.t) (h : EventHandler.t)
    (after : list EventHandler.t) :
  EventManager._event_handlers (bus_after ops) !! event_name
    = Some (before ++ h :: after) →
  (∀ h', h' ∈ before →
     cancels (code (EventHandler.handler h')
                (Event.__init__ event_name kwargs)) = false) →
  cancels (code (EventHandler.handler h) (Event.__init__ event_name kwargs))
    = true →
  let emission := EventManager.emit (bus_after ops) code event_name kwargs in
  EventManager.named_calls emission = before ++ [h]
  ∧ EventManager.wildcard_calls emission = []
  ∧ Event.is_cancelled (EventManager.event emission) = true
  ∧ Forall (λ h', EventHandler_le h' h) before
  ∧ Forall (EventHandler_le h) after
  ∧ EventManager.named_calls
      (EventManager.emit (bus_after three_handlers) handler_1_cancels "x" [])
    = [EventHandler.mk 3%N LOWEST None;
       EventHandler.mk 2%N NORMAL None;
       EventHandler.mk 1%N HIGHEST None].
Proof.
  intros Hreg Hquiet Hcancel emission.
  pose proof (bus_after_sorted ops _ _ Hreg) as Hsorted.
  unfold emission, EventManager.emit. rewrite Hreg.
  rewrite dispatch_cut by done.
  assert (Hwild : ∀ o : option (list EventHandler.t),
            match o with
            | Some handlers =>
                EventManager.dispatch code handlers
                  (Event.cancel (Event.__init__ event_name kwargs))
            | None => (Event.cancel (Event.__init__ event_name kwargs), [])
            end = (Event.cancel (Event.__init__ event_name kwargs), [])).
  { intros [handlers|]; [|done]. by apply dispatch_cancelled. }
  rewrite Hwild. simpl.
  repeat split.
  - apply Forall_forall. intros h' Hh'.
    eapply StronglySorted_app_1_elem_of; [exact Hsorted|done|left].
  - apply StronglySorted_app_1_r in Hsorted.
    by apply StronglySorted_inv in Hsorted as [_ Hle].
Qed.

Lemma cancellation_stops_later_handlers_witness :
  let emission :=
    EventManager.emit (bus_after three_handlers) handler_1_cancels "x" [] in
  EventManager.named_calls emission
  = [EventHandler.mk 3%N LOWEST None; EventHandler.mk 2%N NORMAL None]
      ++ [EventHandler.mk 1%N HIGHEST None]
  ∧ EventManager.wildcard_calls emission = []
  ∧ Event.is_cancelled (EventManager.event emission) = true.
Proof.
  intros emission.
  destruct (cancellation_stops_later_handlers three_handlers handler_1_cancels
              "x" []
              [EventHandler.mk 3%N LOWEST None; EventHandler.mk 2%N NORMAL None]
              (EventHandler.mk 1%N HIGHEST None) [])
    as (Hnamed & Hwild & Hcancelled & _).
  - reflexivity.
  - intros h' Hh'.
    apply elem_of_cons in Hh' as [->|Hh']; [reflexivity|].
    apply elem_of_cons in Hh' as [->|Hh']; [reflexivity|].
    by apply elem_of_nil in Hh'.
  - reflexivity.
  - split; [exact Hnamed|]. split; [exact Hwild|exact Hcancelled].
Defined.

(** ** The plugin life cycle *)

(** C6. After [disable_plugin] the handler that the plugin registered
    for [plugin_enabled] is still registered, although [shutdown()] was
    called and the plugin is disabled: [unregister_plugin_events] recovers
    the event name from the recorded key with [split('_')[0]], which
    yields ["plugin"].  A handler for an event name without an underscore
    is removed.  [disable_plugin] runs [plugin.disable] in an executor
    thread, where no event loop is running ([running_loop] is false):
    [create_task] raises there, the error is logged and no
    [plugin_disabled] event is scheduled either.  The handler stays
    whichever value [running_loop] has. *)
Theorem disable_plugin_keeps_underscore_handlers (running_loop : bool) :
  let '(host, effects) :=
    PluginManager.disable_plugin (host_with_handler "plugin_enabled") "P"
      (Returned ()) running_loop in
  effects
  = [called_shutdown;
     if running_loop then created_task "plugin_disabled" 7%N
     else logged_error]
  ∧ (PluginManager.disable_plugin (host_with_handler "plugin_enabled") "P"
       (Returned ()) false).2
    = [called_shutdown; logged_error]
  ∧ Plugin.enabled <$> PluginManager.plugins host !! "P" = Some false
  ∧ EventManager._event_handlers (PluginManager.event_manager host)
      !! "plugin_enabled"
    = Some [EventHandler.mk 42%N NORMAL (Some 7%N)]
  ∧ EventManager._event_handlers
      (PluginManager.event_manager
         (PluginManager.disable_plugin (host_with_handler "x") "P"
            (Returned ()) running_loop).1) !! "x"
    = None.
Proof. destruct running_loop; vm_compute; repeat split. Qed.

(** C8. Disabling a plugin whose [enabled] flag is false returns
    normally, leaves the plugin as it is, calls no [shutdown()] and
    schedules no [plugin_disabled] event; through the plugin host the
    registry of plugins is left as it is and there is no effect either. *)
Theorem disable_disabled_plugin_is_noop (self : Plugin.t)
    (shutdown : PyResult unit) (running_loop : bool)
    (host : PluginManager.t) (plugin_name : string) :
  Plugin.enabled self = false →
  Plugin.disable self shutdown running_loop = (self, [])
  ∧ (PluginManager.plugins host !! plugin_name = Some self →
     let '(host1, effects) :=
       PluginManager.disable_plugin host plugin_name shutdown running_loop in
     effects = []
     ∧ PluginManager.plugins host1 = PluginManager.plugins host).
Proof.
  intros Hoff.
  assert (Hdisable : Plugin.disable self shutdown running_loop = (self, [])).
  { unfold Plugin.disable. by rewrite Hoff. }
  split; [done|].
  intros Hlookup. unfold PluginManager.disable_plugin.
  rewrite Hlookup, Hdisable. split; [done|]. simpl. by apply insert_id.
Qed.

Lemma disable_disabled_plugin_is_noop_witness :
  Plugin.disable (Plugin.mk 7%N "P" false) (Returned ()) true
  = (Plugin.mk 7%N "P" false, [])
  ∧ (PluginManager.disable_plugin host_with_idle_plugin "P" (Returned ()) true).2
    = [].
Proof.
  destruct (disable_disabled_plugin_is_noop (Plugin.mk 7%N "P" false)
              (Returned ()) true host_with_idle_plugin "P" eq_refl)
    as [Hplugin Hhost].
  split; [exact Hplugin|].
  specialize (Hhost eq_refl).
  destruct (PluginManager.disable_plugin host_with_idle_plugin "P"
              (Returned ()) true) as [host1 effects].
  exact (proj1 Hhost).
Defined.

(** C9, as stated, fails: when [initialize()] returns false the plugin
    stays not enabled, and a second [enable_plugin] call runs
    [initialize()] a second time. *)
Lemma failed_enable_runs_initialize_again :
  ¬ (∀ (host : PluginManager.t) (plugin_name : string)
       (initialize1 initialize2 : PyResult bool) (loop1 loop2 : bool),
       let '(_, host1, effects1) :=
         PluginManager.enable_plugin host plugin_name initialize1 loop1 in
       let '(_, _, effects2) :=
         PluginManager.enable_plugin host1 plugin_name initialize2 loop2 in
       (count_effect called_initialize (effects1 ++ effects2) ≤ 1)%nat).
Proof.
  intros Hclaim.
  specialize (Hclaim host_with_idle_plugin "P" (Returned false)
                (Returned false) true true).
  vm_compute in Hclaim. lia.
Qed.

(** C9, amended. An [enable] call on a plugin that is already enabled
    returns false, changes nothing and does not call [initialize()].
    Across two sequential [enable_plugin] calls for a plugin whose first
    [initialize()] returns true, [initialize()] runs exactly once; a
    first [initialize()] that fails leaves the plugin not enabled, and
    the second call runs it again. *)
Theorem enable_enabled_plugin_is_noop (host : PluginManager.t)
    (plugin_name : string) (plugin : Plugin.t) (initialize : PyResult bool)
    (loop1 loop2 : bool) :
  PluginManager.plugins host !! plugin_name = Some plugin →
  (Plugin.enabled plugin = true →
   Plugin.enable plugin initialize loop1 = (false, plugin, [])
   ∧ PluginManager.enable_plugin host plugin_name initialize loop1
     = (false, host, []))
  ∧ (Plugin.enabled plugin = false →
     let '(_, host1, effects1) :=
       PluginManager.enable_plugin host plugin_name (Returned true) loop1 in
     let '(success2, host2, effects2) :=
       PluginManager.enable_plugin host1 plugin_name initialize loop2 in
     success2 = false
     ∧ host2 = host1
     ∧ effects2 = []
     ∧ count_effect called_initialize (effects1 ++ effects2) = 1%nat)
  ∧ (Plugin.enabled plugin = false →
     ∀ failed : PyResult bool,
       failed = Returned false ∨ failed = Raised →
       let '(success1, host1, effects1) :=
         PluginManager.enable_plugin host plugin_name failed loop1 in
       let '(_, _, effects2) :=
         PluginManager.enable_plugin host1 plugin_name initialize loop2 in
       success1 = false
       ∧ host1 = host
       ∧ count_effect called_initialize effects1 = 1%nat
       ∧ count_effect called_initialize effects2 = 1%nat).
Proof.
  intros Hlookup. split; [|split].
  - intros Hon.
    assert (Henable : Plugin.enable plugin initialize loop1 = (false, plugin, [])).
    { unfold Plugin.enable. by rewrite Hon. }
    split; [done|].
    unfold PluginManager.enable_plugin, PluginManager._enable_plugin_async.
    rewrite Hlookup, Henable. destruct host as [plugins em]. simpl in *.
    by rewrite insert_id.
  - intros Hoff.
    unfold PluginManager.enable_plugin, PluginManager._enable_plugin_async.
    rewrite Hlookup. unfold Plugin.enable at 1. rewrite Hoff. simpl.
    destruct loop1; simpl; rewrite lookup_insert_eq; simpl;
      rewrite insert_insert_eq; done.
  - intros Hoff failed Hfailed.
    assert (Hsame : <[plugin_name := plugin]> (PluginManager.plugins host)
                    = PluginManager.plugins host) by by apply insert_id.
    unfold PluginManager.enable_plugin, PluginManager._enable_plugin_async.
    rewrite Hlookup. unfold Plugin.enable. rewrite Hoff.
    destruct host as [plugins em]. simpl in *.
    destruct Hfailed as [-> | ->]; simpl; rewrite Hsame, Hlookup;
      destruct initialize as [[]|], loop2; simpl; rewrite Hoff; simpl;
      repeat split.
Qed.

Lemma enable_enabled_plugin_is_noop_witness :
  PluginManager.enable_plugin (host_with_handler "x") "P" (Returned true) true
  = (false, host_with_handler "x", [])
  ∧ (let '(_, host1, effects1) :=
       PluginManager.enable_plugin host_with_idle_plugin "P" (Returned true)
         false in
     let '(success2, host2, effects2) :=
       PluginManager.enable_plugin host1 "P" (Returned true) true in
     success2 = false ∧ host2 = host1 ∧ effects2 = []
     ∧ count_effect called_initialize (effects1 ++ effects2) = 1%nat).
Proof.
  split.
  - destruct (enable_enabled_plugin_is_noop (host_with_handler "x") "P"
                (Plugin.mk 7%N "P" true) (Returned true) true true eq_refl)
      as (Hon & _ & _).
    exact (proj2 (Hon eq_refl)).
  - destruct (enable_enabled_plugin_is_noop host_with_idle_plugin "P"
                (Plugin.mk 7%N "P" false) (Returned true) false true eq_refl)
      as (_ & Hoff & _).
    exact (Hoff eq_refl).
Defined.


(* ===================================================================== *)
(** * Part III: further properties of the code                            *)
(* ===================================================================== *)

(** ** The ledger keys of [add_command] *)

(** X1. Two submissions share a ledger entry exactly when they have the
    same class and the same effective source id, where a missing and an
    empty source id both count as ["default"]. *)
Theorem source_key_shared_iff (c1 c2 : CommandType) (s1 s2 : option string) :
  DGLabController.source_key c1 s1 = DGLabController.source_key c2 s2
  ↔ c1 = c2 ∧ py_or_str s1 "default" = py_or_str s2 "default".
Proof.
  split.
  - unfold DGLabController.source_key.
    destruct c1, c2; simpl; intros E; simplify_eq; done.
  - intros [-> Hs]. by apply source_key_eq.
Qed.

(** X2. Submissions whose source ids have the same effective value
    throttle each other: once one of them is accepted, a submission of the
    same class from any source id with that effective value, such as
    [None], the empty string and ["default"], is rejected while the
    cooldown of the class runs. *)
Theorem aliased_sources_share_cooldown {ranks : CommandTypeValues}
    (self self1 : DGLabController.t) (now now2 : Q) (uuid4 uuid4' : string)
    (command_type : CommandType) (channel channel2 : Channel)
    (operation operation2 : StrengthOperationType) (value value2 : Z)
    (source_id source_id2 : option string) :
  py_or_str source_id "default" = py_or_str source_id2 "default" →
  cooldown_allows (DGLabController.command_sources self)
    (DGLabController.source_key command_type source_id)
    (DGLabController.source_cooldowns command_type) now = true →
  DGLabController.add_command self now uuid4 command_type channel operation
    value source_id = Some self1 →
  Qltb (now2 - now) (DGLabController.source_cooldowns command_type) = true →
  DGLabController.add_command self1 now2 uuid4' command_type channel2
    operation2 value2 source_id2 = Some self1.
Proof.
  intros Halias Hallowed Hadd Hwithin.
  destruct (add_command_result self now uuid4 command_type channel operation
              value source_id) as (self1' & Hadd' & Hstate).
  rewrite Hadd in Hadd'. injection Hadd' as <-.
  rewrite Hallowed in Hstate. destruct Hstate as (Hledger & _ & _).
  assert (Hkey : DGLabController.source_key command_type source_id2
                 = DGLabController.source_key command_type source_id).
  { by apply source_key_eq. }
  unfold DGLabController.add_command.
  by rewrite Hkey, Hledger, lookup_insert_eq, Hwithin.
Qed.

Lemma aliased_sources_share_cooldown_witness :
  ∃ self1,
    DGLabController.add_command (ranks := sample_ranks)
      DGLabController.__init__ 10 "u1" TON_COMMAND Channel_A INCREASE 5 None
    = Some self1
    ∧ DGLabController.add_command (ranks := sample_ranks) self1 (101 # 10)
        "u2" TON_COMMAND Channel_B SET_TO 9 (Some "default") = Some self1.
Proof.
  destruct (DGLabController.add_command (ranks := sample_ranks)
              DGLabController.__init__ 10 "u1" TON_COMMAND Channel_A INCREASE
              5 None) as [self1|] eqn:Hadd; [|discriminate Hadd].
  exists self1. split; [reflexivity|].
  apply (aliased_sources_share_cooldown (ranks := sample_ranks)
           DGLabController.__init__ self1 10 (101 # 10) "u1" "u2" TON_COMMAND
           Channel_A Channel_B INCREASE SET_TO 5 9 None (Some "default"));
    [reflexivity|reflexivity|exact Hadd|reflexivity].
Defined.

(** ** What the dispatcher loop keeps *)

Lemma same_settings_refl (self : DGLabController.t) : same_settings self self.
Proof. by repeat split. Qed.

Lemma same_settings_trans (s1 s2 s3 : DGLabController.t) :
  same_settings s1 s2 → same_settings s2 s3 → same_settings s1 s3.
Proof.
  unfold same_settings. intros (?&?&?&?&?&?) (?&?&?&?&?&?).
  repeat split; congruence.
Qed.

Lemma execute_command_frame (self : DGLabController.t) command :
  same_settings self (DGLabController.execute_command self command).1
  ∧ DGLabController.command_sources
      (DGLabController.execute_command self command).1
    = DGLabController.command_sources self.
Proof.
  unfold DGLabController.execute_command.
  destruct (ChannelCommand.operation command); simpl;
    try (split; [apply same_settings_refl|done]).
  destruct (ChannelCommand.channel command); simpl; by repeat split.
Qed.

Lemma dispatch_command_cases (self : DGLabController.t) current_time command :
  let marked :=
    DGLabController.set_command_sources
      (<[ChannelCommand.source_id command := current_time]>
         (DGLabController.command_sources self)) self in
  DGLabController.dispatch_command self current_time command
    = (self, DGLabController.mk_dispatch command true [])
  ∨ DGLabController.dispatch_command self current_time command
    = (marked, DGLabController.mk_dispatch command false [])
  ∨ DGLabController.dispatch_command self current_time command
    = ((DGLabController.execute_command marked command).1,
       DGLabController.mk_dispatch command false
         (DGLabController.execute_command marked command).2).
Proof.
  intros marked. unfold DGLabController.dispatch_command. fold marked.
  destruct (Qltb _ _); [by left|]. right.
  destruct (DGLabController.execute_command marked command) as [s c] eqn:E.
  repeat match goal with
  | |- context [if ?b then _ else _] => destruct b
  end; simpl; auto.
Qed.

Lemma dispatch_command_frame (self : DGLabController.t) current_time command :
  let self1 := (DGLabController.dispatch_command self current_time command).1 in
  let d := (DGLabController.dispatch_command self current_time command).2 in
  same_settings self self1
  ∧ DGLabController.command_sources self1
    = if DGLabController.skipped d then DGLabController.command_sources self
      else <[ChannelCommand.source_id command := current_time]>
             (DGLabController.command_sources self).
Proof.
  pose proof (execute_command_frame
                (DGLabController.set_command_sources
                   (<[ChannelCommand.source_id command := current_time]>
                      (DGLabController.command_sources self)) self) command)
    as [Hsame Hledger].
  destruct (dispatch_command_cases self current_time command)
    as [-> | [-> | ->]]; simpl.
  - split; [apply same_settings_refl|done].
  - by repeat split.
  - split; [|done].
    eapply same_settings_trans; [|exact Hsame]. by repeat split.
Qed.

Lemma process_commands_step_inv {ranks : CommandTypeValues}
    (self self1 : DGLabController.t) current_time d :
  DGLabController.process_commands_step self current_time = Some (self1, d) →
  ∃ queue,
    heappop ChannelCommand.__lt__ (DGLabController.command_queue self)
      = Some (DGLabController.taken d, queue)
    ∧ (self1, d)
      = DGLabController.dispatch_command
          (DGLabController.set_command_queue queue self) current_time
          (DGLabController.taken d).
Proof.
  unfold DGLabController.process_commands_step. intros Hstep.
  destruct (heappop _ _) as [[command queue]|]; [|done].
  simpl in Hstep. injection Hstep as Hstep.
  pose proof (dispatch_command_taken
                (DGLabController.set_command_queue queue self)
                current_time command) as Htaken.
  rewrite Hstep in Htaken. simpl in Htaken. subst command.
  exists queue. by rewrite Hstep.
Qed.

(** A property of single dispatches that holds under the settings of the
    start state holds for every turn of the loop. *)
Lemma process_commands_Forall {ranks : CommandTypeValues}
    (P : DGLabController.Dispatch → Prop) (self0 : DGLabController.t) :
  (∀ self current_time command,
     same_settings self0 self →
     P (DGLabController.dispatch_command self current_time command).2) →
  ∀ clock self,
    same_settings self0 self →
    Forall P (DGLabController.process_commands self clock).2
    ∧ same_settings self0 (DGLabController.process_commands self clock).1.
Proof.
  intros HP. induction clock as [|current_time clock IH]; intros self Hsame;
    simpl; [by split|].
  destruct (DGLabController.process_commands_step self current_time)
    as [[self1 d]|] eqn:Hstep; [|by split].
  destruct (process_commands_step_inv _ _ _ _ Hstep) as (queue & _ & Hrun).
  assert (Hsame0 : same_settings self0
                     (DGLabController.set_command_queue queue self)).
  { eapply same_settings_trans; [exact Hsame|]. by repeat split. }
  assert (Hsame1 : same_settings self0 self1).
  { eapply same_settings_trans; [exact Hsame0|].
    pose proof (dispatch_command_frame
                  (DGLabController.set_command_queue queue self) current_time
                  (DGLabController.taken d)) as [Hf _].
    by rewrite <-Hrun in Hf. }
  destruct (IH self1 Hsame1) as [Hall Hend].
  destruct (DGLabController.process_commands self1 clock) as [self2 ds].
  simpl in *. split; [|done].
  constructor; [|done].
  specialize (HP (DGLabController.set_command_queue queue self) current_time
                (DGLabController.taken d) Hsame0).
  by rewrite <-Hrun in HP.
Qed.

(** X3. The cooldown ledger only grows: neither a submission nor any
    number of dispatcher turns removes an entry. *)
Theorem ledger_never_shrinks {ranks : CommandTypeValues}
    (self : DGLabController.t) (now : Q) (uuid4 : string)
    (command_type : CommandType) (channel : Channel)
    (operation : StrengthOperationType) (value : Z)
    (source_id : option string) (clock : list Q) :
  (∃ self1,
     DGLabController.add_command self now uuid4 command_type channel
       operation value source_id = Some self1
     ∧ dom (DGLabController.command_sources self)
       ⊆ dom (DGLabController.command_sources self1))
  ∧ dom (DGLabController.command_sources self)
    ⊆ dom (DGLabController.command_sources
             (DGLabController.process_commands self clock).1).
Proof.
  split.
  - destruct (add_command_result self now uuid4 command_type channel
                operation value source_id) as (self1 & Hadd & Hstate).
    exists self1. split; [done|].
    destruct (cooldown_allows _ _ _ _).
    + destruct Hstate as (-> & _). rewrite dom_insert_L. set_solver.
    + by subst.
  - revert self. induction clock as [|current_time clock IH]; intros self;
      simpl; [done|].
    destruct (DGLabController.process_commands_step self current_time)
      as [[self1 d]|] eqn:Hstep; [|done].
    destruct (process_commands_step_inv _ _ _ _ Hstep) as (queue & _ & Hrun).
    pose proof (dispatch_command_frame
                  (DGLabController.set_command_queue queue self) current_time
                  (DGLabController.taken d)) as [_ Hledger].
    rewrite <-Hrun in Hledger. simpl in Hledger.
    specialize (IH self1).
    destruct (DGLabController.process_commands self1 clock) as [self2 ds].
    simpl in *. etrans; [|exact IH]. rewrite Hledger.
    destruct (DGLabController.skipped d); [done|].
    rewrite dom_insert_L. set_solver.
Qed.

(** X4. The dispatcher loop neither loses nor duplicates a command: the
    commands that were waiting are, as a multiset, the commands taken by
    the turns of the loop together with the commands still waiting. *)
Theorem dispatcher_conserves_commands {ranks : CommandTypeValues}
    (ops : list QueueOp) (self : DGLabController.t) (clock : list Q) :
  let self0 := DGLabController.set_command_queue (queue_after ops []) self in
  let run := DGLabController.process_commands self0 clock in
  queue_after ops []
  ≡ₚ map DGLabController.taken run.2 ++ DGLabController.command_queue run.1.
Proof.
  intros self0 run.
  assert (Hgen : ∀ clock self,
            heap_ok ChannelCommand.__lt__ (DGLabController.command_queue self) →
            DGLabController.command_queue self
            ≡ₚ map DGLabController.taken
                 (DGLabController.process_commands self clock).2
               ++ DGLabController.command_queue
                    (DGLabController.process_commands self clock).1).
  { clear. induction clock as [|current_time clock IH]; intros self Hok;
      simpl; [done|].
    destruct (decide (DGLabController.command_queue self = [])) as [E|Hne].
    { by rewrite (process_commands_step_empty _ _ E). }
    destruct (process_commands_step_spec self current_time Hok Hne)
      as (self1 & d & -> & Hok1 & Hperm & _).
    specialize (IH self1 Hok1).
    destruct (DGLabController.process_commands self1 clock) as [self2 ds].
    simpl in *. by rewrite Hperm, IH. }
  apply (Hgen clock self0). apply queue_after_ok, heap_ok_nil.
Qed.

Lemma dispatch_command_gate (self : DGLabController.t) current_time command :
  toggled_off self command = true →
  DGLabController.calls
    (DGLabController.dispatch_command self current_time command).2 = [].
Proof.
  intros Hoff. unfold DGLabController.dispatch_command.
  destruct (Qltb _ _); [done|].
  unfold toggled_off in Hoff. simpl.
  destruct (ChannelCommand.command_type command); simpl in *;
    try discriminate.
  - by destruct (DGLabController.enable_gui_commands self).
  - by destruct (DGLabController.enable_panel_commands self).
  - destruct (DGLabController.enable_interaction_commands self); [|done].
    simpl in *.
    destruct (ChannelCommand.channel command); simpl in *;
      [destruct (DGLabController.enable_interaction_mode_a self)
      |destruct (DGLabController.enable_interaction_mode_b self)];
      simpl in *; try discriminate; done.
Qed.

Lemma toggled_off_same_settings (s1 s2 : DGLabController.t) command :
  same_settings s1 s2 → toggled_off s1 command = toggled_off s2 command.
Proof.
  intros (_ & Hg & Hp & Hi & Ha & Hb). unfold toggled_off.
  by rewrite Hg, Hp, Hi, Ha, Hb.
Qed.

(** X5. The dispatcher loop honours the gates it starts with: a command
    whose class toggle is off, or an interaction command whose channel
    mode is off, causes no transport call in any turn of the loop (the
    loop itself never changes a toggle). *)
Theorem dispatcher_respects_gates {ranks : CommandTypeValues}
    (self : DGLabController.t) (clock : list Q) :
  Forall
    (λ d, toggled_off self (DGLabController.taken d) = true →
          DGLabController.calls d = [])
    (DGLabController.process_commands self clock).2
  ∧ same_settings self (DGLabController.process_commands self clock).1.
Proof.
  apply (process_commands_Forall
           (λ d, toggled_off self (DGLabController.taken d) = true →
                 DGLabController.calls d = []) self);
    [|apply same_settings_refl].
  intros self' current_time command Hsame.
  rewrite dispatch_command_taken. intros Hoff.
  apply dispatch_command_gate.
  by rewrite <-(toggled_off_same_settings self self').
Qed.

Lemma dispatcher_respects_gates_witness :
  map DGLabController.calls
    (DGLabController.process_commands (ranks := sample_ranks) busy_controller
       [10; 11; 12]%Q).2
  = [[client_set_strength Channel_A SET_TO 100]; [];
     [client_set_strength Channel_B SET_TO 0]]
  ∧ Forall
      (λ d, toggled_off busy_controller (DGLabController.taken d) = true →
            DGLabController.calls d = [])
      (DGLabController.process_commands (ranks := sample_ranks)
         busy_controller [10; 11; 12]%Q).2.
Proof.
  split; [reflexivity|].
  exact (proj1 (dispatcher_respects_gates (ranks := sample_ranks)
                  busy_controller [10; 11; 12]%Q)).
Defined.

Lemma adjust_strength_calls_bounded (self : DGLabController.t)
    (ls : StrengthData.t) channel delta :
  DGLabController.last_strength self = Some ls →
  0 ≤ channel_limit ls channel →
  Forall
    (λ call, ∃ v, call = client_set_strength channel SET_TO v
                  ∧ 0 ≤ v ≤ channel_limit ls channel)
    (DGLabController.adjust_strength self channel delta).
Proof.
  intros Hls Hlimit. unfold DGLabController.adjust_strength. rewrite Hls.
  destruct channel; simpl in *; repeat constructor; eexists;
    (split; [done|lia]).
Qed.

(** X6. With a strength report whose limits are not negative, every
    transport call that the dispatcher loop issues for an INCREASE or a
    DECREASE command sets the command's channel to a value between 0 and
    the limit of that channel. *)
Theorem dispatcher_relative_commands_within_limit {ranks : CommandTypeValues}
    (self : DGLabController.t) (ls : StrengthData.t) (clock : list Q) :
  DGLabController.last_strength self = Some ls →
  0 ≤ StrengthData.a_limit ls →
  0 ≤ StrengthData.b_limit ls →
  Forall
    (λ d,
       ChannelCommand.operation (DGLabController.taken d) = INCREASE
       ∨ ChannelCommand.operation (DGLabController.taken d) = DECREASE →
       Forall
         (λ call,
            ∃ v, call = client_set_strength
                          (ChannelCommand.channel (DGLabController.taken d))
                          SET_TO v
                 ∧ 0 ≤ v ≤ channel_limit ls
                             (ChannelCommand.channel (DGLabController.taken d)))
         (DGLabController.calls d))
    (DGLabController.process_commands self clock).2.
Proof.
  intros Hls Ha Hb.
  apply (process_commands_Forall _ self); [|apply same_settings_refl].
  intros self' current_time command (Hls' & _).
  rewrite dispatch_command_taken. intros Hop.
  assert (Hlimit : 0 ≤ channel_limit ls (ChannelCommand.channel command))
    by by destruct (ChannelCommand.channel command).
  destruct (dispatch_command_cases self' current_time command)
    as [-> | [-> | ->]]; simpl; [constructor..|].
  unfold DGLabController.execute_command.
  destruct Hop as [-> | ->]; simpl;
    apply adjust_strength_calls_bounded; simpl; congruence.
Qed.

Lemma dispatcher_relative_commands_within_limit_witness :
  Forall
    (λ d,
       ChannelCommand.operation (DGLabController.taken d) = INCREASE
       ∨ ChannelCommand.operation (DGLabController.taken d) = DECREASE →
       Forall
         (λ call,
            ∃ v, call = client_set_strength
                          (ChannelCommand.channel (DGLabController.taken d))
                          SET_TO v
                 ∧ 0 ≤ v ≤ channel_limit (StrengthData.mk 10 20 100 50)
                             (ChannelCommand.channel (DGLabController.taken d)))
         (DGLabController.calls d))
    (DGLabController.process_commands (ranks := sample_ranks) busy_controller
       [10; 11; 12]%Q).2.
Proof.
  apply (dispatcher_relative_commands_within_limit (ranks := sample_ranks)
           busy_controller (StrengthData.mk 10 20 100 50) [10; 11; 12]%Q).
  - reflexivity.
  - simpl. lia.
  - simpl. lia.
Defined.

(** ** The long press that switches a channel to interaction mode *)



(** ** Fire mode *)

(** X8. [strength_fire_mode] leaves the fire-mode flag as it found it
    whenever it returns normally.  When a transport call fails in it, the
    flag stays set, and from then on every fire request returns at once
    without any transport call. *)
Theorem fire_mode_stays_set_after_transport_error
    (self : DGLabController.FireState) (transport : ClientCall → bool)
    (value : bool) (channel : Channel) (fire_strength : Z)
    (last_strength : option StrengthData.t) :
  let '(self1, calls, outcome) :=
    DGLabController.strength_fire_mode self transport value channel
      fire_strength last_strength in
  (outcome = Returned () →
   DGLabController.fire_mode_active self1
   = DGLabController.fire_mode_active self)
  ∧ (outcome = Raised →
     DGLabController.fire_mode_active self1 = true
     ∧ ∀ transport' value' channel' fire_strength' last_strength',
         DGLabController.strength_fire_mode self1 transport' value' channel'
           fire_strength' last_strength' = (self1, [], Returned ())).
Proof.
  unfold DGLabController.strength_fire_mode.
  destruct value; simpl; [|by split].
  destruct (DGLabController.fire_mode_active self) eqn:Hactive; simpl;
    [by split|].
  destruct (transport (client_set_strength channel SET_TO fire_strength)).
  - destruct last_strength as [ls|]; [|by split].
    destruct (transport _); split; try done.
    intros _. split; [done|]. intros. simpl. by rewrite andb_false_r.
  - split; [done|]. intros _.
    destruct last_strength as [ls|]; simpl; (split; [done|]);
      intros; by rewrite andb_false_r.
Qed.

Lemma fire_mode_stays_set_after_transport_error_witness :
  let self := DGLabController.mk_fire false 0 0 in
  let wedged := DGLabController.mk_fire true 10 20 in
  DGLabController.strength_fire_mode self transport_down true Channel_A 30
    (Some (StrengthData.mk 10 20 100 50))
  = (wedged, [client_set_strength Channel_A SET_TO 30], Raised)
  ∧ DGLabController.strength_fire_mode wedged transport_up true Channel_A 30
      (Some (StrengthData.mk 10 20 100 50)) = (wedged, [], Returned ())
  ∧ DGLabController.strength_fire_mode self transport_up true Channel_A 30
      (Some (StrengthData.mk 10 20 100 50))
    = (DGLabController.mk_fire false 10 20,
       [client_set_strength Channel_A SET_TO 30;
        client_set_strength Channel_A SET_TO 10], Returned ()).
Proof.
  intros self wedged. split; [reflexivity|]. split; [|reflexivity].
  pose proof (fire_mode_stays_set_after_transport_error self transport_down
                true Channel_A 30 (Some (StrengthData.mk 10 20 100 50)))
    as Hfire.
  simpl in Hfire. destruct Hfire as [_ Hraised].
  destruct (Hraised eq_refl) as [_ Hlater].
  apply Hlater.
Defined.

(** ** Registration order on the event bus *)

Lemma list_sort_snoc {T} (lt : T → T → bool) (l : list T) (x : T) :
  list_sort lt (l ++ [x]) = sort_insert lt x (list_sort lt l).
Proof. unfold list_sort. by rewrite foldl_app. Qed.

Lemma sort_insert_last (x : EventHandler.t) (l : list EventHandler.t) :
  Forall (λ z, EventHandler_le z x) l →
  sort_insert EventHandler.__lt__ x l = l ++ [x].
Proof.
  induction 1 as [|z l Hz _ IH]; simpl; [done|].
  apply EventHandler_lt_le in Hz. by rewrite Hz, IH.
Qed.

Lemma list_sort_sorted_id (l : list EventHandler.t) :
  StronglySorted EventHandler_le l → list_sort EventHandler.__lt__ l = l.
Proof.
  induction l as [|x l IH] using rev_ind; intros Hsorted; [done|].
  rewrite list_sort_snoc, IH by by eapply StronglySorted_app_1_l.
  apply sort_insert_last, Forall_forall. intros z Hz.
  eapply StronglySorted_app_1_elem_of; [exact Hsorted|done|].
  apply list_elem_of_singleton. done.
Qed.

Lemma filter_all_id {T} (P : T → Prop) `{∀ x, Decision (P x)} (l : list T) :
  Forall P l → filter P l = l.
Proof.
  induction 1 as [|x l Hx _ IH]; [done|].
  by rewrite filter_cons, decide_True, IH.
Qed.

Lemma filter_none_nil {T} (P : T → Prop) `{∀ x, Decision (P x)} (l : list T) :
  Forall (λ x, ¬ P x) l → filter P l = [].
Proof.
  induction 1 as [|x l Hx _ IH]; [done|].
  by rewrite filter_cons, decide_False, IH.
Qed.

(** Where the insertion sort puts a new entry in a list in dispatch
    order: behind the entries of the same or a lower priority value. *)
Lemma sort_insert_split (x : EventHandler.t) (l : list EventHandler.t) :
  StronglySorted EventHandler_le l →
  sort_insert EventHandler.__lt__ x l
  = filter (λ z, EventPriority_value (EventHandler.priority z)
                 ≤ EventPriority_value (EventHandler.priority x)) l
    ++ x :: filter (λ z, EventPriority_value (EventHandler.priority x)
                         < EventPriority_value (EventHandler.priority z)) l.
Proof.
  induction 1 as [|z l Hl IH Hz]; simpl; [done|].
  rewrite !filter_cons.
  destruct (EventHandler.__lt__ x z) eqn:Hlt.
  - unfold EventHandler.__lt__ in Hlt. apply Z.ltb_lt in Hlt.
    assert (Hall : Forall
              (λ w, EventPriority_value (EventHandler.priority x)
                    < EventPriority_value (EventHandler.priority w)) l).
    { eapply Forall_impl; [exact Hz|]. intros w Hw.
      unfold EventHandler_le in Hw. lia. }
    rewrite decide_False by lia. rewrite decide_True by done.
    rewrite filter_none_nil, filter_all_id; [done|done|].
    eapply Forall_impl; [exact Hall|]. simpl. intros w Hw. lia.
  - unfold EventHandler.__lt__ in Hlt. apply Z.ltb_ge in Hlt.
    rewrite decide_True by done. rewrite decide_False by lia.
    simpl. by rewrite IH.
Qed.

Lemma register_event_handler_lookup (self : EventManager.t) event_name
    handler priority plugin n :
  EventManager._event_handlers
    (EventManager.register_event_handler self event_name handler priority
       plugin) !! n
  = if decide (event_name = n)
    then Some (list_sort EventHandler.__lt__
                 (registered_for self event_name
                  ++ [EventHandler.mk handler priority plugin]))
    else EventManager._event_handlers self !! n.
Proof.
  unfold EventManager.register_event_handler, registered_for.
  destruct plugin; simpl; by rewrite lookup_insert.
Qed.

Lemma registered_for_register (self : EventManager.t) event_name handler
    priority plugin n :
  registered_for
    (EventManager.register_event_handler self event_name handler priority
       plugin) n
  = if decide (event_name = n)
    then list_sort EventHandler.__lt__
           (registered_for self event_name
            ++ [EventHandler.mk handler priority plugin])
    else registered_for self n.
Proof.
  unfold registered_for at 1. rewrite register_event_handler_lookup.
  by case_decide.
Qed.

(** X9. Registering a handler puts it behind the handlers of the same
    event that have the same or a lower priority value and before those
    with a higher one, so handlers of equal priority run in the order of
    their registration; the handlers already registered keep their order
    and the lists of other events are untouched. *)
Theorem register_places_handler_by_priority (ops : list BusOp)
    (event_name : string) (handler : Callable) (priority : EventPriority)
    (plugin : option PluginRef) (other : string) :
  let bus :=
    EventManager.register_event_handler (bus_after ops) event_name handler
      priority plugin in
  registered_for bus event_name
  = filter (λ z, EventPriority_value (EventHandler.priority z)
                 ≤ EventPriority_value priority)
      (registered_for (bus_after ops) event_name)
    ++ EventHandler.mk handler priority plugin
       :: filter (λ z, EventPriority_value priority
                       < EventPriority_value (EventHandler.priority z))
            (registered_for (bus_after ops) event_name)
  ∧ (other ≠ event_name →
     registered_for bus other = registered_for (bus_after ops) other).
Proof.
  intros bus. unfold bus. rewrite !registered_for_register. split.
  - rewrite decide_True by done.
    assert (Hsorted : StronglySorted EventHandler_le
                        (registered_for (bus_after ops) event_name)).
    { unfold registered_for.
      destruct (EventManager._event_handlers (bus_after ops) !! event_name)
        as [hs|] eqn:E; simpl; [|constructor].
      by eapply bus_after_sorted. }
    rewrite list_sort_snoc, list_sort_sorted_id by done.
    by rewrite sort_insert_split.
  - intros Hne. by rewrite decide_False.
Qed.

Lemma register_places_handler_by_priority_witness :
  registered_for
    (EventManager.register_event_handler (bus_after three_handlers) "x" 4%N
       NORMAL None) "x"
  = [EventHandler.mk 3%N LOWEST None; EventHandler.mk 2%N NORMAL None;
     EventHandler.mk 4%N NORMAL None; EventHandler.mk 1%N HIGHEST None]
  ∧ registered_for
      (EventManager.register_event_handler (bus_after three_handlers) "x" 4%N
         NORMAL None) "y" = [].
Proof.
  destruct (register_places_handler_by_priority three_handlers "x" 4%N NORMAL
              None "y") as [Hplace Hother].
  split; [exact Hplace|].
  apply Hother. discriminate.
Defined.

(** ** Unregistering handlers *)

Lemma remove_handler_lookup (event_handlers : gmap string (list EventHandler.t))
    event_name handler n :
  EventManager.remove_handler event_handlers event_name handler !! n
  = if decide (event_name = n)
    then match event_handlers !! n with
         | Some handlers =>
             match filter (λ h, EventHandler.handler h ≠ handler) handlers with
             | [] => None
             | kept => Some kept
             end
         | None => None
         end
    else event_handlers !! n.
Proof.
  unfold EventManager.remove_handler.
  destruct (decide (event_name = n)) as [->|Hne].
  - destruct (event_handlers !! n) as [handlers|] eqn:E; [|done].
    destruct (filter _ handlers) as [|k kept].
    + by rewrite lookup_delete_eq.
    + by rewrite lookup_insert_eq.
  - destruct (event_handlers !! event_name) as [handlers|]; [|done].
    destruct (filter _ handlers) as [|k kept].
    + by rewrite lookup_delete_ne.
    + by rewrite lookup_insert_ne.
Qed.

Lemma remove_handler_nonempty event_handlers event_name handler :
  (∀ n hs, event_handlers !! n = Some hs → hs ≠ []) →
  ∀ n hs,
    EventManager.remove_handler event_handlers event_name handler !! n = Some hs →
    hs ≠ [].
Proof.
  intros Hne n hs. rewrite remove_handler_lookup.
  case_decide; [|by apply Hne].
  destruct (event_handlers !! n) as [handlers|]; [|done].
  destruct (filter _ handlers); [done|]. by intros [= <-].
Qed.

Lemma sort_insert_not_nil {T} (lt : T → T → bool) x l : sort_insert lt x l ≠ [].
Proof. destruct l as [|y l]; simpl; [done|]. by destruct (lt x y). Qed.

Lemma bus_apply_nonempty (self : EventManager.t) (op : BusOp) :
  handlers_nonempty self → handlers_nonempty (bus_apply self op).
Proof.
  intros Hne. destruct op as [event_name handler priority plugin
                             |event_name handler|plugin]; simpl.
  - intros n hs. rewrite register_event_handler_lookup.
    case_decide; [|by apply Hne].
    intros [= <-]. rewrite list_sort_snoc. apply sort_insert_not_nil.
  - intros n hs. by apply remove_handler_nonempty.
  - unfold EventManager.unregister_plugin_events.
    destruct (EventManager._plugin_events self !! plugin) as [recorded|];
      [|done].
    intros n hs. simpl. revert n hs.
    assert (∀ m : gmap string (list EventHandler.t),
              (∀ n hs, m !! n = Some hs → hs ≠ []) →
              ∀ n hs,
                foldl
                  (λ acc item,
                     EventManager.remove_handler acc
                       (split_head "_"%char item.1)
                       (EventHandler.handler item.2)) m recorded !! n
                = Some hs → hs ≠ []) as Hfold.
    { induction recorded as [|item recorded IH]; intros m Hm; simpl;
        [exact Hm|].
      apply IH. by apply remove_handler_nonempty. }
    by apply Hfold.
Qed.

Lemma bus_after_nonempty (ops : list BusOp) : handlers_nonempty (bus_after ops).
Proof.
  unfold bus_after.
  assert (∀ self, handlers_nonempty self →
                  handlers_nonempty (foldl bus_apply self ops)) as Hgen.
  { induction ops as [|op ops IH]; intros self Hself; simpl; [done|].
    by apply IH, bus_apply_nonempty. }
  apply Hgen. intros n hs. simpl. by rewrite lookup_empty.
Qed.

Lemma registered_for_unregister (self : EventManager.t) event_name handler n :
  registered_for
    (EventManager.unregister_event_handler self event_name handler) n
  = if decide (event_name = n)
    then filter (λ h, EventHandler.handler h ≠ handler) (registered_for self n)
    else registered_for self n.
Proof.
  unfold registered_for, EventManager.unregister_event_handler. simpl.
  rewrite remove_handler_lookup. case_decide; [|done].
  destruct (EventManager._event_handlers self !! n) as [handlers|]; [|done].
  simpl. by destruct (filter _ handlers).
Qed.

(** X10. [unregister_event_handler] removes every registration of the
    callable for the event, keeps the other handlers of the event in
    their order and leaves the other events alone.  An event whose last
    handler is removed disappears from the table: an event name is kept
    exactly as long as its handler count is not zero. *)
Theorem unregister_removes_the_callable (ops : list BusOp)
    (event_name : string) (handler : Callable) (other : string) :
  let bus :=
    EventManager.unregister_event_handler (bus_after ops) event_name handler in
  registered_for bus event_name
  = filter (λ h, EventHandler.handler h ≠ handler)
      (registered_for (bus_after ops) event_name)
  ∧ (other ≠ event_name →
     registered_for bus other = registered_for (bus_after ops) other)
  ∧ (EventManager._event_handlers bus !! other = None
     ↔ EventManager.get_handler_count bus other = 0%nat).
Proof.
  intros bus. unfold bus. rewrite !registered_for_unregister.
  split; [by rewrite decide_True|]. split; [intros; by rewrite decide_False|].
  pose proof (bus_after_nonempty (ops ++ [bus_unregister event_name handler]))
    as Hne.
  unfold bus_after in Hne. rewrite foldl_app in Hne. simpl in Hne.
  unfold EventManager.get_handler_count.
  destruct (EventManager._event_handlers _ !! other) as [hs|] eqn:E; [|done].
  split; [done|]. intros Hlen. destruct hs; [|done]. by destruct (Hne _ _ E).
Qed.

Lemma unregister_removes_the_callable_witness :
  registered_for
    (EventManager.unregister_event_handler (bus_after three_handlers) "x" 2%N)
    "x"
  = [EventHandler.mk 3%N LOWEST None; EventHandler.mk 1%N HIGHEST None]
  ∧ registered_for
      (EventManager.unregister_event_handler (bus_after three_handlers) "x"
         2%N) "y"
    = registered_for (bus_after three_handlers) "y".
Proof.
  destruct (unregister_removes_the_callable three_handlers "x" 2%N "y")
    as (Hsame & Hother & _).
  split; [exact Hsame|]. apply Hother. discriminate.
Defined.

Lemma filter_sort_insert_out (x : EventHandler.t) (l : list EventHandler.t) :
  Forall (λ z, EventHandler.handler z ≠ EventHandler.handler x) l →
  filter (λ z, EventHandler.handler z ≠ EventHandler.handler x)
    (sort_insert EventHandler.__lt__ x l) = l.
Proof.
  induction 1 as [|z l Hz Hl IH]; simpl.
  - by rewrite filter_cons, decide_False by (intros Hneg; by apply Hneg).
  - destruct (EventHandler.__lt__ x z).
    + rewrite filter_cons, decide_False by (intros Hneg; by apply Hneg).
      apply filter_all_id. by constructor.
    + by rewrite filter_cons, decide_True, IH.
Qed.

(** X11. Registering a callable that the event does not have yet and
    unregistering it again gives back the handler table of before. *)
Theorem register_unregister_round_trip (ops : list BusOp)
    (event_name : string) (handler : Callable) (priority : EventPriority)
    (plugin : option PluginRef) :
  Forall (λ h, EventHandler.handler h ≠ handler)
    (registered_for (bus_after ops) event_name) →
  EventManager._event_handlers
    (EventManager.unregister_event_handler
       (EventManager.register_event_handler (bus_after ops) event_name handler
          priority plugin) event_name handler)
  = EventManager._event_handlers (bus_after ops).
Proof.
  intros Hfresh. apply map_eq. intros n.
  unfold EventManager.unregister_event_handler. simpl.
  rewrite remove_handler_lookup, register_event_handler_lookup.
  case_decide as Hn; [subst n|done].
  assert (Hsorted : StronglySorted EventHandler_le
                      (registered_for (bus_after ops) event_name)).
  { unfold registered_for.
    destruct (EventManager._event_handlers (bus_after ops) !! event_name)
      as [hs|] eqn:E; simpl; [|constructor].
    by eapply bus_after_sorted. }
  rewrite list_sort_snoc, list_sort_sorted_id by done.
  rewrite (filter_sort_insert_out (EventHandler.mk handler priority plugin))
    by done.
  unfold registered_for.
  destruct (EventManager._event_handlers (bus_after ops) !! event_name)
    as [hs|] eqn:E; simpl; [|done].
  destruct hs; [|done]. by destruct (bus_after_nonempty ops _ _ E).
Qed.

Lemma register_unregister_round_trip_witness :
  EventManager._event_handlers
    (EventManager.unregister_event_handler
       (EventManager.register_event_handler (bus_after three_handlers) "x" 4%N
          HIGH (Some 7%N)) "x" 4%N)
  = EventManager._event_handlers (bus_after three_handlers).
Proof.
  apply (register_unregister_round_trip three_handlers "x" 4%N HIGH (Some 7%N)).
  repeat constructor; discriminate.
Defined.

(** ** What [unregister_plugin_events] removes *)

Lemma split_head_no_sep (sep : ascii) (s : string) :
  string_has sep (split_head sep s) = false.
Proof.
  induction s as [|c s IH]; simpl; [done|].
  case_bool_decide as Hc; simpl; [done|]. by rewrite bool_decide_false, IH.
Qed.

Lemma string_has_app (c : ascii) (s1 s2 : string) :
  string_has c (s1 +:+ s2) = string_has c s1 || string_has c s2.
Proof.
  induction s1 as [|c1 s1 IH]; simpl; [done|]. by rewrite IH, orb_assoc.
Qed.

Lemma split_head_app (sep : ascii) (s1 s2 : string) :
  string_has sep s1 = false →
  split_head sep (s1 +:+ String sep s2) = s1.
Proof.
  induction s1 as [|c s1 IH]; simpl.
  - intros _. by rewrite bool_decide_true.
  - intros [Hc Hs1]%orb_false_elim. rewrite Hc. by rewrite IH.
Qed.

Lemma split_rest_app (sep : ascii) (s1 s2 : string) :
  string_has sep s1 = false →
  split_rest sep (s1 +:+ String sep s2) = s2.
Proof.
  induction s1 as [|c s1 IH]; simpl.
  - intros _. by rewrite bool_decide_true.
  - intros [Hc Hs1]%orb_false_elim. rewrite Hc. by rewrite IH.
Qed.

Lemma split_rest_app_has (sep : ascii) (s1 s2 : string) :
  string_has sep s1 = true →
  split_rest sep (s1 +:+ s2) = split_rest sep s1 +:+ s2.
Proof.
  induction s1 as [|c s1 IH]; simpl; [done|].
  case_bool_decide; simpl; [done|]. apply IH.
Qed.

Lemma pretty_N_go_no_underscore (x : N) : ∀ s,
  string_has "_" s = false → string_has "_" (pretty_N_go x s) = false.
Proof.
  induction (N.lt_wf_0 x) as [x _ IH]. intros s Hs.
  destruct (decide (x = 0%N)) as [->|Hx]; [by rewrite pretty_N_go_0|].
  rewrite pretty_N_go_step by lia.
  apply IH; [apply N.div_lt; lia|].
  simpl. rewrite Hs, orb_false_r.
  unfold pretty_N_char. by repeat case_match.
Qed.

Lemma pretty_N_no_underscore (x : N) : string_has "_" (pretty x) = false.
Proof.
  unfold pretty, pretty_N. case_decide; [done|].
  by apply pretty_N_go_no_underscore.
Qed.

Lemma event_key_unfold (event_name : string) (h : Callable) :
  event_key event_name h = event_name +:+ String "_" (pretty h).
Proof. reflexivity. Qed.

(** The key of an event without underscore determines the callable. *)
Lemma event_key_callable (n1 n2 : string) (h1 h2 : Callable) :
  string_has "_" n1 = false →
  event_key n1 h1 = event_key n2 h2 → h1 = h2.
Proof.
  intros Hn1 Hkey.
  apply (f_equal (split_rest "_")) in Hkey.
  rewrite !event_key_unfold in Hkey.
  rewrite split_rest_app in Hkey by done.
  destruct (string_has "_" n2) eqn:Hn2.
  - rewrite split_rest_app_has in Hkey by done.
    apply (f_equal (string_has "_")) in Hkey.
    rewrite pretty_N_no_underscore, string_has_app in Hkey. simpl in Hkey.
    by rewrite orb_true_r in Hkey.
  - rewrite split_rest_app in Hkey by done. by apply (inj pretty).
Qed.

Lemma split_head_event_key (event_name : string) (h : Callable) :
  string_has "_" event_name = false →
  split_head "_" (event_key event_name h) = event_name.
Proof. intros Hn. rewrite event_key_unfold. by apply split_head_app. Qed.

Lemma dict_set_elem_of {V} (k : string) (v : V) (d : list (string * V)) :
  (k, v) ∈ dict_set k v d.
Proof.
  induction d as [|[k' v'] d IH]; simpl; [left|].
  case_bool_decide; [left|by right].
Qed.

Lemma dict_set_elem_of_ne {V} (k k' : string) (v v' : V)
    (d : list (string * V)) :
  k' ≠ k → (k', v') ∈ d → (k', v') ∈ dict_set k v d.
Proof.
  intros Hne. induction d as [|[k0 v0] d IH]; simpl; [by intros ?%elem_of_nil|].
  intros [Heq|Hin]%elem_of_cons.
  - injection Heq as <- <-. rewrite bool_decide_false by done. left.
  - case_bool_decide; right; [done|by apply IH].
Qed.

Lemma remove_handler_elem_of event_handlers event_name handler n hs x :
  EventManager.remove_handler event_handlers event_name handler !! n = Some hs →
  x ∈ hs →
  ∃ hs0, event_handlers !! n = Some hs0 ∧ x ∈ hs0
         ∧ (n = event_name → EventHandler.handler x ≠ handler).
Proof.
  rewrite remove_handler_lookup. case_decide as Hn.
  - destruct (event_handlers !! n) as [hs0|]; [|done].
    destruct (filter _ hs0) as [|k kept] eqn:Hf; [done|].
    intros [= <-] Hx. rewrite <-Hf in Hx.
    apply list_elem_of_filter in Hx as [Hne Hx]. eauto.
  - intros Hlookup Hx. exists hs. split; [done|]. split; [done|].
    intros ->. done.
Qed.

Lemma remove_recorded_elem_of (recorded : list (string * EventHandler.t)) :
  ∀ event_handlers n hs x,
    foldl
      (λ acc item,
         EventManager.remove_handler acc (split_head "_"%char item.1)
           (EventHandler.handler item.2))
      event_handlers recorded !! n = Some hs →
    x ∈ hs →
    ∃ hs0, event_handlers !! n = Some hs0 ∧ x ∈ hs0
           ∧ ∀ item, item ∈ recorded → split_head "_"%char item.1 = n →
                     EventHandler.handler x ≠ EventHandler.handler item.2.
Proof.
  induction recorded as [|item recorded IH]; intros m n hs x Hlookup Hx;
    simpl in *.
  - exists hs. split; [done|]. split; [done|]. by intros item ?%elem_of_nil.
  - destruct (IH _ _ _ _ Hlookup Hx) as (hs1 & Hlookup1 & Hx1 & Hrest).
    destruct (remove_handler_elem_of _ _ _ _ _ _ Hlookup1 Hx1)
      as (hs0 & Hlookup0 & Hx0 & Hfirst).
    exists hs0. split; [done|]. split; [done|].
    intros item' [->|Hin]%elem_of_cons Hhead; [by apply Hfirst|].
    by apply Hrest.
Qed.

(** X12. [unregister_plugin_events] never changes the handlers of an
    event whose name contains an underscore, whatever the plugin has
    registered; and it forgets the record of the plugin, so a second call
    changes nothing. *)
Theorem unregister_plugin_events_skips_underscore_names
    (self : EventManager.t) (plugin : PluginRef) (event_name : string) :
  let bus := EventManager.unregister_plugin_events self plugin in
  (string_has "_" event_name = true →
   EventManager._event_handlers bus !! event_name
   = EventManager._event_handlers self !! event_name)
  ∧ EventManager._plugin_events bus !! plugin = None
  ∧ EventManager.unregister_plugin_events bus plugin = bus.
Proof.
  intros bus.
  assert (Hforgot : EventManager._plugin_events bus !! plugin = None).
  { unfold bus, EventManager.unregister_plugin_events.
    destruct (EventManager._plugin_events self !! plugin) eqn:E; [|done].
    simpl. apply lookup_delete_eq. }
  split; [|split; [done|]].
  - intros Hname. unfold bus, EventManager.unregister_plugin_events.
    destruct (EventManager._plugin_events self !! plugin) as [recorded|];
      [|done].
    simpl. generalize (EventManager._event_handlers self).
    induction recorded as [|item recorded IH]; intros m; simpl; [done|].
    rewrite IH, remove_handler_lookup.
    case_decide as Hhead; [|done].
    pose proof (split_head_no_sep "_" item.1) as Hno.
    rewrite Hhead, Hname in Hno. done.
  - unfold EventManager.unregister_plugin_events at 1. by rewrite Hforgot.
Qed.

Lemma unregister_plugin_events_skips_underscore_names_witness :
  EventManager._event_handlers
    (EventManager.unregister_plugin_events
       (PluginManager.event_manager (host_with_handler "strength_data_received"))
       7%N) !! "strength_data_received"
  = Some [EventHandler.mk 42%N NORMAL (Some 7%N)].
Proof.
  destruct (unregister_plugin_events_skips_underscore_names
              (PluginManager.event_manager
                 (host_with_handler "strength_data_received")) 7%N
              "strength_data_received") as (Hskip & _ & _).
  rewrite Hskip; reflexivity.
Defined.

Lemma register_event_handler_records (self : EventManager.t) event_name
    handler priority plugin p :
  EventManager._plugin_events
    (EventManager.register_event_handler self event_name handler priority
       plugin) !! p
  = if decide (plugin = Some p)
    then Some (dict_set (event_key event_name handler)
                 (EventHandler.mk handler priority plugin)
                 (default [] (EventManager._plugin_events self !! p)))
    else EventManager._plugin_events self !! p.
Proof.
  unfold EventManager.register_event_handler.
  destruct plugin as [q|]; simpl.
  - destruct (decide (Some q = Some p)) as [[= ->]|Hne].
    + by rewrite lookup_insert_eq.
    + rewrite lookup_insert_ne; [done|congruence].
  - done.
Qed.

(** A plugin whose handlers under underscore-free names are all recorded
    has none of them left after [unregister_plugin_events]. *)
Lemma unregister_plugin_events_removes (self : EventManager.t)
    (plugin : PluginRef) event_name hs x :
  plugin_records_ok self →
  string_has "_" event_name = false →
  EventManager._event_handlers
    (EventManager.unregister_plugin_events self plugin) !! event_name
    = Some hs →
  x ∈ hs →
  EventHandler.plugin x ≠ Some plugin.
Proof.
  intros Hok Hname Hlookup Hx Hplugin.
  unfold EventManager.unregister_plugin_events in Hlookup.
  destruct (EventManager._plugin_events self !! plugin) as [recorded|] eqn:E.
  - simpl in Hlookup.
    destruct (remove_recorded_elem_of _ _ _ _ _ Hlookup Hx)
      as (hs0 & Hlookup0 & Hx0 & Hgone).
    destruct (Hok _ _ _ _ Hname Hlookup0 Hx0 Hplugin)
      as (recorded' & handler_obj & Hrec & Hin & Hsame).
    rewrite E in Hrec. injection Hrec as <-.
    apply (Hgone _ Hin); simpl; [|done].
    by apply split_head_event_key.
  - destruct (Hok _ _ _ _ Hname Hlookup Hx Hplugin)
      as (recorded' & handler_obj & Hrec & _).
    by rewrite E in Hrec.
Qed.

Lemma bus_apply_records_ok (self : EventManager.t) (op : BusOp) :
  handlers_sorted self →
  plugin_records_ok self → plugin_records_ok (bus_apply self op).
Proof.
  intros Hsorted Hok.
  destruct op as [event_name handler priority plugin
                 |event_name handler|plugin]; simpl.
  - intros n hs x p Hn Hlookup Hx Hp.
    rewrite register_event_handler_lookup in Hlookup.
    rewrite register_event_handler_records.
    assert (Hold : ∀ hs0, EventManager._event_handlers self !! n = Some hs0 →
              x ∈ hs0 →
              ∃ recorded handler_obj,
                (if decide (plugin = Some p)
                 then Some (dict_set (event_key event_name handler)
                              (EventHandler.mk handler priority plugin)
                              (default [] (EventManager._plugin_events self !! p)))
                 else EventManager._plugin_events self !! p) = Some recorded
                ∧ (event_key n (EventHandler.handler x), handler_obj) ∈ recorded
                ∧ EventHandler.handler handler_obj = EventHandler.handler x).
    { intros hs0 Hlookup0 Hx0.
      destruct (Hok _ _ _ _ Hn Hlookup0 Hx0 Hp)
        as (recorded & handler_obj & Hrec & Hin & Hsame).
      destruct (decide (plugin = Some p)) as [Hplugin|Hplugin];
        [|by exists recorded, handler_obj].
      rewrite Hrec. simpl.
      destruct (decide (event_key n (EventHandler.handler x)
                        = event_key event_name handler)) as [Hkey|Hkey].
      - eexists _, (EventHandler.mk handler priority plugin).
        split; [done|]. rewrite Hkey. split; [apply dict_set_elem_of|].
        simpl. symmetry. by eapply event_key_callable.
      - eexists _, handler_obj. split; [done|].
        split; [by apply dict_set_elem_of_ne|done]. }
    destruct (decide (event_name = n)) as [Hname|Hname]; [|by eapply Hold].
    subst n. injection Hlookup as <-.
    assert (Hreg : StronglySorted EventHandler_le (registered_for self event_name)).
    { unfold registered_for.
      destruct (EventManager._event_handlers self !! event_name) as [hs0|] eqn:E;
        simpl; [by eapply Hsorted|constructor]. }
    rewrite list_sort_snoc, list_sort_sorted_id in Hx by done.
    apply sort_insert_elem_of in Hx as [->|Hx].
    + simpl in Hp. subst plugin. rewrite decide_True by done.
      eexists _, _. split; [done|]. split; [apply dict_set_elem_of|done].
    + unfold registered_for in Hx.
      destruct (EventManager._event_handlers self !! event_name) as [hs0|] eqn:E;
        simpl in Hx; [by eapply Hold|by apply elem_of_nil in Hx].
  - intros n hs x p Hn Hlookup Hx Hp. simpl in *.
    destruct (remove_handler_elem_of _ _ _ _ _ _ Hlookup Hx)
      as (hs0 & Hlookup0 & Hx0 & _).
    by eapply Hok.
  - intros n hs x p Hn Hlookup Hx Hp.
    destruct (decide (p = plugin)) as [->|Hne].
    { by destruct (unregister_plugin_events_removes self plugin n hs x). }
    unfold EventManager.unregister_plugin_events in *.
    destruct (EventManager._plugin_events self !! plugin) as [recorded|] eqn:E;
      [|by eapply Hok].
    simpl in *.
    destruct (remove_recorded_elem_of _ _ _ _ _ Hlookup Hx)
      as (hs0 & Hlookup0 & Hx0 & _).
    rewrite lookup_delete_ne by done. by eapply Hok.
Qed.

Lemma bus_after_snoc (ops : list BusOp) (op : BusOp) :
  bus_after (ops ++ [op]) = bus_apply (bus_after ops) op.
Proof. unfold bus_after. by rewrite foldl_app. Qed.

Lemma bus_after_records_ok (ops : list BusOp) : plugin_records_ok (bus_after ops).
Proof.
  induction ops as [|op ops IH] using rev_ind.
  - intros n hs x p _ Hlookup. unfold bus_after in Hlookup. simpl in Hlookup.
    by rewrite lookup_empty in Hlookup.
  - rewrite bus_after_snoc.
    apply bus_apply_records_ok; [apply bus_after_sorted|done].
Qed.

(** X13. For an event without underscore in its name,
    [unregister_plugin_events] removes every handler that was registered
    on behalf of the plugin: none of the handlers left for the event
    belongs to the plugin. *)
Theorem unregister_plugin_events_clears_plain_names (ops : list BusOp)
    (plugin : PluginRef) (event_name : string) :
  string_has "_" event_name = false →
  Forall (λ h, EventHandler.plugin h ≠ Some plugin)
    (registered_for
       (EventManager.unregister_plugin_events (bus_after ops) plugin)
       event_name).
Proof.
  intros Hname. apply Forall_forall. intros x Hx.
  unfold registered_for in Hx.
  destruct (EventManager._event_handlers _ !! event_name) as [hs|] eqn:E;
    simpl in Hx; [|by apply elem_of_nil in Hx].
  eapply unregister_plugin_events_removes; [apply bus_after_records_ok|done..].
Qed.

Lemma unregister_plugin_events_clears_plain_names_witness :
  Forall (λ h, EventHandler.plugin h ≠ Some 7%N)
    (registered_for
       (EventManager.unregister_plugin_events
          (bus_after [bus_register "tick" 1%N HIGH (Some 7%N);
                      bus_register "tick" 2%N LOW (Some 8%N);
                      bus_register "tick" 3%N LOW (Some 7%N)]) 7%N) "tick").
Proof.
  apply (unregister_plugin_events_clears_plain_names
           [bus_register "tick" 1%N HIGH (Some 7%N);
            bus_register "tick" 2%N LOW (Some 8%N);
            bus_register "tick" 3%N LOW (Some 7%N)] 7%N "tick").
  reflexivity.
Defined.

Example plugin_handlers_cleared :
  registered_for
    (EventManager.unregister_plugin_events
       (bus_after [bus_register "tick" 1%N HIGH (Some 7%N);
                   bus_register "tick" 2%N LOW (Some 8%N);
                   bus_register "tick" 3%N LOW (Some 7%N)]) 7%N) "tick"
  = [EventHandler.mk 2%N LOW (Some 8%N)].
Proof. reflexivity. Qed.

(** ** The wildcard tier of [emit] *)

(** X14. When no handler cancels, [emit] invokes every handler of the
    event name and then every handler registered for ["*"], each tier in
    its dispatch order, and returns an event that is not cancelled; for
    the event named ["*"] itself the wildcard handlers are therefore
    invoked twice. *)
Theorem emit_runs_named_then_wildcard (self : EventManager.t)
    (code : HandlerCode) (event_name : string) (kwargs : list (string * N)) :
  (∀ h, h ∈ registered_for self event_name ++ registered_for self "*" →
        cancels (code (EventHandler.handler h)
                   (Event.__init__ event_name kwargs)) = false) →
  let emission := EventManager.emit self code event_name kwargs in
  EventManager.named_calls emission = registered_for self event_name
  ∧ EventManager.wildcard_calls emission = registered_for self "*"
  ∧ Event.is_cancelled (EventManager.event emission) = false.
Proof.
  intros Hquiet emission.
  assert (Hnamed : EventManager.dispatch code (registered_for self event_name)
                     (Event.__init__ event_name kwargs)
                   = (Event.__init__ event_name kwargs,
                      registered_for self event_name)).
  { apply dispatch_no_cancel; [done|].
    intros h Hh. apply Hquiet, elem_of_app. by left. }
  assert (Hwild : EventManager.dispatch code (registered_for self "*")
                    (Event.__init__ event_name kwargs)
                  = (Event.__init__ event_name kwargs,
                     registered_for self "*")).
  { apply dispatch_no_cancel; [done|].
    intros h Hh. apply Hquiet, elem_of_app. by right. }
  unfold emission, EventManager.emit. unfold registered_for in *.
  destruct (EventManager._event_handlers self !! event_name) as [hs|];
    simpl in *; [rewrite Hnamed|];
    (destruct (EventManager._event_handlers self !! "*") as [ws|];
     simpl in *; [rewrite Hwild|]); done.
Qed.

Lemma emit_runs_named_then_wildcard_witness :
  let bus :=
    bus_after [bus_register "*" 1%N NORMAL None; bus_register "*" 2%N LOW None] in
  EventManager.named_calls (EventManager.emit bus quiet_handlers "*" [])
  = [EventHandler.mk 2%N LOW None; EventHandler.mk 1%N NORMAL None]
  ∧ EventManager.wildcard_calls (EventManager.emit bus quiet_handlers "*" [])
    = [EventHandler.mk 2%N LOW None; EventHandler.mk 1%N NORMAL None].
Proof.
  intros bus.
  destruct (emit_runs_named_then_wildcard bus quiet_handlers "*" [])
    as (Hnamed & Hwild & _).
  - intros h _. reflexivity.
  - split; [exact Hnamed|exact Hwild].
Defined.

(** ** Outcomes of [enable] and [disable] *)

(** X15. [enable] returns true only when the plugin was not enabled,
    [initialize()] returned true and the [plugin_enabled] notification
    could be scheduled.  The plugin ends up enabled exactly when it was
    enabled before or [initialize()] returned true; so when the
    notification fails, [enable] returns false although the plugin has
    become enabled. *)
Theorem enable_outcome (self : Plugin.t) (initialize : PyResult bool)
    (running_loop : bool) :
  let '(success, self1, effects) :=
    Plugin.enable self initialize running_loop in
  (success = true
   ↔ Plugin.enabled self = false ∧ initialize = Returned true
     ∧ running_loop = true)
  ∧ (Plugin.enabled self1 = true
     ↔ Plugin.enabled self = true ∨ initialize = Returned true)
  ∧ (count_effect called_initialize effects
     = if Plugin.enabled self then 0%nat else 1%nat)
  ∧ (created_task "plugin_enabled" (Plugin.id self) ∈ effects
     ↔ success = true).
Proof.
  unfold Plugin.enable, Plugin.notify.
  destruct (Plugin.enabled self) eqn:Hon, initialize as [[]|], running_loop;
    simpl; rewrite ?Hon; repeat split;
    try (intuition congruence);
    try (intros Hin;
         repeat (apply elem_of_cons in Hin as [Hin|Hin]; [discriminate Hin|]);
         by apply elem_of_nil in Hin).
  intros _. right. left.
Qed.

Lemma unregister_plugin_events_forgets (self : EventManager.t)
    (plugin : PluginRef) :
  EventManager._plugin_events
    (EventManager.unregister_plugin_events self plugin) !! plugin = None.
Proof.
  unfold EventManager.unregister_plugin_events.
  destruct (EventManager._plugin_events self !! plugin) eqn:E; [|done].
  simpl. apply lookup_delete_eq.
Qed.

(** X16. [disable] leaves a plugin enabled when its [shutdown()] raises.
    [disable_plugin] of the plugin host unregisters the event handlers of
    the plugin all the same: the plugin stays enabled, but the record of
    its handlers is gone. *)
Theorem disable_plugin_with_failing_shutdown (host : PluginManager.t)
    (plugin_name : string) (plugin : Plugin.t) (running_loop : bool) :
  PluginManager.plugins host !! plugin_name = Some plugin →
  Plugin.enabled plugin = true →
  let '(host1, effects) :=
    PluginManager.disable_plugin host plugin_name Raised running_loop in
  PluginManager.plugins host1 = PluginManager.plugins host
  ∧ effects = [called_shutdown; logged_error]
  ∧ PluginManager.event_manager host1
    = EventManager.unregister_plugin_events
        (PluginManager.event_manager host) (Plugin.id plugin)
  ∧ EventManager._plugin_events (PluginManager.event_manager host1)
    !! Plugin.id plugin = None.
Proof.
  intros Hlookup Hon. unfold PluginManager.disable_plugin, Plugin.disable.
  rewrite Hlookup, Hon. simpl.
  split; [by apply insert_id|]. split; [done|]. split; [done|].
  apply unregister_plugin_events_forgets.
Qed.

Lemma disable_plugin_with_failing_shutdown_witness :
  let host1 :=
    (PluginManager.disable_plugin (host_with_handler "tick") "P" Raised true).1 in
  Plugin.enabled <$> PluginManager.plugins host1 !! "P" = Some true
  ∧ registered_for (PluginManager.event_manager host1) "tick" = [].
Proof.
  intros host1.
  pose proof (disable_plugin_with_failing_shutdown (host_with_handler "tick")
                "P" (Plugin.mk 7%N "P" true) true eq_refl eq_refl) as Hfail.
  unfold host1.
  destruct (PluginManager.disable_plugin (host_with_handler "tick") "P" Raised
              true) as [host2 effects].
  destruct Hfail as (Hplugins & _ & Hbus & _). simpl.
  rewrite Hplugins, Hbus. split; reflexivity.
Defined.

(** X17. A plugin that is disabled through the plugin host and enabled
    again is enabled as before, but [enable_plugin] does not put back
    the event handlers that [disable_plugin] has unregistered. *)
Theorem disable_enable_cycle_loses_handlers (host : PluginManager.t)
    (plugin_name : string) (plugin : Plugin.t) (loop1 loop2 : bool) :
  PluginManager.plugins host !! plugin_name = Some plugin →
  Plugin.enabled plugin = true →
  let '(host1, _) :=
    PluginManager.disable_plugin host plugin_name (Returned ()) loop1 in
  let '(_, host2, _) :=
    PluginManager.enable_plugin host1 plugin_name (Returned true) loop2 in
  PluginManager.plugins host2 = PluginManager.plugins host
  ∧ PluginManager.event_manager host2
    = EventManager.unregister_plugin_events
        (PluginManager.event_manager host) (Plugin.id plugin).
Proof.
  intros Hlookup Hon.
  unfold PluginManager.disable_plugin, Plugin.disable, Plugin.notify.
  rewrite Hlookup, Hon.
  assert (Hback : Plugin.set_enabled true (Plugin.set_enabled false plugin)
                  = plugin).
  { destruct plugin as [i n e]. simpl in *. by subst. }
  destruct loop1; simpl;
    unfold PluginManager.enable_plugin, PluginManager._enable_plugin_async;
    simpl; rewrite lookup_insert_eq; simpl;
    destruct loop2; simpl; rewrite insert_insert_eq, Hback;
    (split; [by apply insert_id|done]).
Qed.

Lemma disable_enable_cycle_loses_handlers_witness :
  let host1 :=
    (PluginManager.disable_plugin (host_with_handler "tick") "P" (Returned ())
       true).1 in
  let host2 :=
    (PluginManager.enable_plugin host1 "P" (Returned true) true).1.2 in
  Plugin.enabled <$> PluginManager.plugins host2 !! "P" = Some true
  ∧ registered_for (PluginManager.event_manager host2) "tick" = [].
Proof.
  intros host1 host2.
  pose proof (disable_enable_cycle_loses_handlers (host_with_handler "tick")
                "P" (Plugin.mk 7%N "P" true) true true eq_refl eq_refl)
    as Hcycle.
  unfold host2, host1.
  destruct (PluginManager.disable_plugin (host_with_handler "tick") "P"
              (Returned ()) true) as [h1 e1].
  simpl.
  destruct (PluginManager.enable_plugin h1 "P" (Returned true) true)
    as [[s2 h2] e2].
  destruct Hcycle as [Hplugins Hbus]. simpl.
  rewrite Hplugins, Hbus. split; reflexivity.
Defined.

(** ** Registering plugins *)

Lemma string_app_cons_ne (s t : string) (c : ascii) : s +:+ String c t ≠ s.
Proof.
  induction s as [|a s IH]; simpl; [done|]. intros [= Hs]. by apply IH.
Qed.

(** X18. [register_plugin] files the plugin under its name when that key
    is free and under the name followed by an underscore and the
    instance id otherwise, and leaves every other key as it is.  In
    particular the plugin that holds the name is not replaced, so that
    after a collision a lookup by the name still yields the earlier
    plugin and not the one just registered. *)
Theorem register_plugin_keeps_name_holder (host : PluginManager.t)
    (plugin : Plugin.t) (declared : list PluginManager.DeclaredHandler)
    (other : string) :
  let host1 := PluginManager.register_plugin host plugin declared in
  let key :=
    match PluginManager.plugins host !! Plugin.name plugin with
    | Some _ => Plugin.name plugin +:+ "_" +:+ pretty (Plugin.id plugin)
    | None => Plugin.name plugin
    end in
  PluginManager.plugins host1 !! key = Some plugin
  ∧ (other ≠ key →
     PluginManager.plugins host1 !! other = PluginManager.plugins host !! other)
  ∧ (∀ earlier,
       PluginManager.plugins host !! Plugin.name plugin = Some earlier →
       PluginManager.plugins host1 !! Plugin.name plugin = Some earlier).
Proof.
  intros host1 key.
  assert (Hplugins : PluginManager.plugins host1
                     = <[key := plugin]> (PluginManager.plugins host)) by done.
  rewrite Hplugins. split; [apply lookup_insert_eq|].
  split; [intros Hne; by rewrite lookup_insert_ne|].
  intros earlier Hearlier. rewrite lookup_insert_ne; [done|].
  unfold key. rewrite Hearlier. apply string_app_cons_ne.
Qed.

Lemma register_plugin_keeps_name_holder_witness :
  let host1 :=
    PluginManager.register_plugin (host_with_handler "tick")
      (Plugin.mk 9%N "P" false) [] in
  PluginManager.plugins host1 !! "P" = Some (Plugin.mk 7%N "P" true)
  ∧ PluginManager.plugins host1 !! "P_9" = Some (Plugin.mk 9%N "P" false).
Proof.
  intros host1.
  destruct (register_plugin_keeps_name_holder (host_with_handler "tick")
              (Plugin.mk 9%N "P" false) [] "Q") as (Hnew & _ & Hearlier).
  split; [|exact Hnew].
  apply Hearlier. reflexivity.
Defined.

Lemma list_sort_elem_of (x : EventHandler.t) (l : list EventHandler.t) :
  x ∈ list_sort EventHandler.__lt__ l ↔ x ∈ l.
Proof.
  unfold list_sort.
  assert (∀ acc,
            x ∈ foldl (λ acc y, sort_insert EventHandler.__lt__ y acc) acc l
            ↔ x ∈ acc ∨ x ∈ l) as Hgen.
  { induction l as [|y l IH]; intros acc; simpl.
    - rewrite elem_of_nil. tauto.
    - rewrite IH, sort_insert_elem_of, elem_of_cons. tauto. }
  rewrite Hgen, elem_of_nil. tauto.
Qed.

Lemma registered_for_register_elem_of (self : EventManager.t) event_name
    handler priority plugin n x :
  x ∈ registered_for
        (EventManager.register_event_handler self event_name handler priority
           plugin) n
  ↔ x ∈ registered_for self n
    ∨ (n = event_name ∧ x = EventHandler.mk handler priority plugin).
Proof.
  rewrite registered_for_register. case_decide as Hn.
  - subst n. rewrite list_sort_elem_of, elem_of_app, list_elem_of_singleton.
    tauto.
  - split; [by left|]. intros [?|[-> _]]; done.
Qed.

Lemma fold_register_declared (plugin_id : PluginRef)
    (declared : list PluginManager.DeclaredHandler) (em : EventManager.t) :
  let bus :=
    foldl
      (λ em d,
         EventManager.register_event_handler em
           (PluginManager.declared_event d) (PluginManager.declared_handler d)
           (PluginManager.declared_priority d) (Some plugin_id))
      em declared in
  Forall
    (λ d,
       EventHandler.mk (PluginManager.declared_handler d)
         (PluginManager.declared_priority d) (Some plugin_id)
       ∈ registered_for bus (PluginManager.declared_event d))
    declared
  ∧ ∀ event_name h,
      h ∈ registered_for em event_name → h ∈ registered_for bus event_name.
Proof.
  induction declared as [|d declared IH] using rev_ind.
  - split; [constructor|done].
  - rewrite foldl_snoc. destruct IH as [Hall Hkeep]. split.
    + apply Forall_app. split.
      * eapply Forall_impl; [exact Hall|]. intros d' Hd'.
        apply registered_for_register_elem_of. by left.
      * constructor; [|constructor].
        apply registered_for_register_elem_of. by right.
    + intros event_name h Hh.
      apply registered_for_register_elem_of. left. by apply Hkeep.
Qed.

(** X19. After [register_plugin] every declared handler of the plugin is
    registered on the event bus for its event, with its priority and on
    behalf of the plugin, and every handler that was registered before is
    still registered. *)
Theorem register_plugin_registers_declared_handlers (host : PluginManager.t)
    (plugin : Plugin.t) (declared : list PluginManager.DeclaredHandler) :
  let bus :=
    PluginManager.event_manager
      (PluginManager.register_plugin host plugin declared) in
  Forall
    (λ d,
       EventHandler.mk (PluginManager.declared_handler d)
         (PluginManager.declared_priority d) (Some (Plugin.id plugin))
       ∈ registered_for bus (PluginManager.declared_event d))
    declared
  ∧ ∀ event_name h,
      h ∈ registered_for (PluginManager.event_manager host) event_name →
      h ∈ registered_for bus event_name.
Proof.
  exact (fold_register_declared (Plugin.id plugin) declared
           (PluginManager.event_manager host)).
Qed.

Lemma register_plugin_registers_declared_handlers_witness :
  let host1 :=
    PluginManager.register_plugin (host_with_handler "tick")
      (Plugin.mk 9%N "Q" false)
      [PluginManager.mk_declared "tick" 5%N HIGHEST;
       PluginManager.mk_declared "strength_data_received" 6%N NORMAL] in
  registered_for (PluginManager.event_manager host1) "tick"
  = [EventHandler.mk 42%N NORMAL (Some 7%N);
     EventHandler.mk 5%N HIGHEST (Some 9%N)]
  ∧ EventHandler.mk 42%N NORMAL (Some 7%N)
    ∈ registered_for (PluginManager.event_manager host1) "tick".
Proof.
  intros host1. split; [reflexivity|].
  destruct (register_plugin_registers_declared_handlers
              (host_with_handler "tick") (Plugin.mk 9%N "Q" false)
              [PluginManager.mk_declared "tick" 5%N HIGHEST;
               PluginManager.mk_declared "strength_data_received" 6%N NORMAL])
    as [_ Hkeep].
  apply Hkeep. left.
Defined.

(** ** Enabling and disabling all plugins *)

Lemma disable_plugin_lookup (host : PluginManager.t) plugin_name shutdown
    running_loop k :
  PluginManager.plugins
    (PluginManager.disable_plugin host plugin_name shutdown running_loop).1 !! k
  = if decide (k = plugin_name)
    then (λ p, (Plugin.disable p shutdown running_loop).1)
           <$> PluginManager.plugins host !! k
    else PluginManager.plugins host !! k.
Proof.
  unfold PluginManager.disable_plugin.
  destruct (decide (k = plugin_name)) as [->|Hne].
  - destruct (PluginManager.plugins host !! plugin_name) as [p|] eqn:E;
      simpl; [|done].
    destruct (Plugin.disable p shutdown running_loop). simpl.
    by rewrite lookup_insert_eq.
  - destruct (PluginManager.plugins host !! plugin_name) as [p|] eqn:E;
      simpl; [|done].
    destruct (Plugin.disable p shutdown running_loop). simpl.
    by rewrite lookup_insert_ne.
Qed.

Lemma disable_plugins_lookup (order : list string) shutdown running_loop k :
  NoDup order →
  ∀ host effects,
    PluginManager.plugins
      (foldl
         (λ acc plugin_name,
            let '(self1, effects1) :=
              PluginManager.disable_plugin acc.1 plugin_name
                (shutdown plugin_name) running_loop in
            (self1, acc.2 ++ effects1))
         (host, effects) order).1 !! k
    = if decide (k ∈ order)
      then (λ p, (Plugin.disable p (shutdown k) running_loop).1)
             <$> PluginManager.plugins host !! k
      else PluginManager.plugins host !! k.
Proof.
  induction 1 as [|n order Hn Hnodup IH]; intros host effects.
  - destruct (decide (k ∈ [])) as [Hin|_]; [by apply elem_of_nil in Hin|done].
  - cbn [foldl fst snd].
    pose proof (disable_plugin_lookup host n (shutdown n) running_loop k)
      as Hstep.
    destruct (PluginManager.disable_plugin host n (shutdown n) running_loop)
      as [host1 effects1]. cbn [fst snd] in *.
    rewrite IH, Hstep.
    destruct (decide (k = n)) as [->|Hne].
    + destruct (decide (n ∈ order)) as [?|_]; [done|].
      destruct (decide (n ∈ n :: order)) as [_|Hout]; [done|].
      destruct Hout. left.
    + destruct (decide (k ∈ order)) as [Hin|Hout].
      * destruct (decide (k ∈ n :: order)) as [_|Hout]; [done|].
        destruct Hout. by right.
      * destruct (decide (k ∈ n :: order)) as [Hin|_]; [|done].
        by apply elem_of_cons in Hin as [?|?].
Qed.

(** X20. [disable_all_plugins] keeps the set of registered plugins, and a
    plugin is disabled afterwards exactly when it was disabled before or
    its [shutdown()] returned; a plugin whose [shutdown()] raises stays
    enabled. *)
Theorem disable_all_plugins_outcome (host : PluginManager.t)
    (shutdown : string → PyResult unit) (running_loop : bool)
    (plugin_name : string) :
  let host1 :=
    (PluginManager.disable_all_plugins host shutdown running_loop).1 in
  match PluginManager.plugins host !! plugin_name with
  | Some plugin =>
      ∃ plugin1,
        PluginManager.plugins host1 !! plugin_name = Some plugin1
        ∧ Plugin.id plugin1 = Plugin.id plugin
        ∧ (Plugin.enabled plugin1 = false
           ↔ Plugin.enabled plugin = false
             ∨ shutdown plugin_name = Returned ())
  | None => PluginManager.plugins host1 !! plugin_name = None
  end.
Proof.
  intros host1. unfold host1, PluginManager.disable_all_plugins,
    PluginManager.disable_plugins.
  rewrite disable_plugins_lookup by apply NoDup_fst_map_to_list.
  destruct (PluginManager.plugins host !! plugin_name) as [plugin|] eqn:E.
  - rewrite decide_True.
    2:{ apply list_elem_of_fmap. exists (plugin_name, plugin).
        split; [done|]. by apply elem_of_map_to_list. }
    simpl. eexists. split; [done|].
    unfold Plugin.disable, Plugin.notify.
    destruct (Plugin.enabled plugin) eqn:Hon, (shutdown plugin_name) as [[]|],
      running_loop; simpl; rewrite ?Hon; repeat split;
      try (intuition congruence).
  - by case_decide.
Qed.

Lemma enable_plugin_async_lookup (host : PluginManager.t) plugin_name
    initialize running_loop k :
  PluginManager.plugins
    (PluginManager._enable_plugin_async host plugin_name initialize
       running_loop).1.2 !! k
  = if decide (k = plugin_name)
    then (λ p, (Plugin.enable p initialize running_loop).1.2)
           <$> PluginManager.plugins host !! k
    else PluginManager.plugins host !! k.
Proof.
  unfold PluginManager._enable_plugin_async.
  destruct (decide (k = plugin_name)) as [->|Hne].
  - destruct (PluginManager.plugins host !! plugin_name) as [p|] eqn:E;
      simpl; [|done].
    destruct (Plugin.enable p initialize running_loop) as [[s p1] e]. simpl.
    by rewrite lookup_insert_eq.
  - destruct (PluginManager.plugins host !! plugin_name) as [p|] eqn:E;
      simpl; [|done].
    destruct (Plugin.enable p initialize running_loop) as [[s p1] e]. simpl.
    by rewrite lookup_insert_ne.
Qed.

Lemma enable_plugins_lookup (order disabled_plugins : list string) initialize
    running_loop k :
  NoDup order →
  ∀ host effects,
    PluginManager.plugins
      (foldl
         (λ acc plugin_name,
            if bool_decide (plugin_name ∈ disabled_plugins) then acc
            else
              let '(_, self1, effects1) :=
                PluginManager._enable_plugin_async acc.1 plugin_name
                  (initialize plugin_name) running_loop in
              (self1, acc.2 ++ effects1))
         (host, effects) order).1 !! k
    = if decide (k ∈ order ∧ k ∉ disabled_plugins)
      then (λ p, (Plugin.enable p (initialize k) running_loop).1.2)
             <$> PluginManager.plugins host !! k
      else PluginManager.plugins host !! k.
Proof.
  induction 1 as [|n order Hn Hnodup IH]; intros host effects.
  - destruct (decide (k ∈ [] ∧ k ∉ disabled_plugins)) as [[Hin _]|_]; [|done].
    by apply elem_of_nil in Hin.
  - cbn [foldl fst snd].
    case_bool_decide as Hdis.
    + rewrite IH.
      destruct (decide (k ∈ order ∧ k ∉ disabled_plugins)) as [[Hin Hk]|Hout].
      * rewrite decide_True; [done|]. split; [by right|done].
      * rewrite decide_False; [done|].
        intros [[->|Hin]%elem_of_cons Hk]; [done|]. by apply Hout.
    + pose proof (enable_plugin_async_lookup host n (initialize n)
                    running_loop k) as Hstep.
      destruct (PluginManager._enable_plugin_async host n (initialize n)
                  running_loop) as [[success host1] effects1].
      cbn [fst snd] in *. rewrite IH, Hstep.
      destruct (decide (k = n)) as [->|Hne].
      * rewrite decide_False by by intros [? _].
        rewrite decide_True; [done|]. split; [left|done].
      * destruct (decide (k ∈ order ∧ k ∉ disabled_plugins))
          as [[Hin Hk]|Hout].
        -- rewrite decide_True; [done|]. split; [by right|done].
        -- rewrite decide_False; [done|].
           intros [[?|Hin]%elem_of_cons Hk]; [done|]. by apply Hout.
Qed.

(** X21. Loading enables a plugin only when its name is not listed in
    [disabled_plugins]: after [_enable_non_disabled_plugins] a registered
    plugin is enabled exactly when it was enabled before, or its name is
    not listed and its [initialize()] returned true.  [enable_all_plugins]
    behaves like the same loop with an empty list. *)
Theorem load_enables_only_listed_plugins (host : PluginManager.t)
    (disabled_plugins : list string) (initialize : string → PyResult bool)
    (running_loop : bool) (plugin_name : string) (plugin : Plugin.t) :
  PluginManager.plugins host !! plugin_name = Some plugin →
  (∃ plugin1,
     PluginManager.plugins
       (PluginManager._enable_non_disabled_plugins host disabled_plugins
          initialize running_loop).1 !! plugin_name = Some plugin1
     ∧ (Plugin.enabled plugin1 = true
        ↔ Plugin.enabled plugin = true
          ∨ ((plugin_name ∉ disabled_plugins)
             ∧ initialize plugin_name = Returned true)))
  ∧ (∃ plugin1,
       PluginManager.plugins
         (PluginManager.enable_all_plugins host initialize running_loop).1
         !! plugin_name = Some plugin1
       ∧ (Plugin.enabled plugin1 = true
          ↔ Plugin.enabled plugin = true
            ∨ initialize plugin_name = Returned true)).
Proof.
  intros Hlookup.
  assert (Hin : plugin_name ∈ (map_to_list (PluginManager.plugins host)).*1).
  { apply list_elem_of_fmap. exists (plugin_name, plugin).
    split; [done|]. by apply elem_of_map_to_list. }
  assert (Henable : ∀ init : PyResult bool,
            Plugin.enabled (Plugin.enable plugin init running_loop).1.2 = true
            ↔ Plugin.enabled plugin = true ∨ init = Returned true).
  { intros init. unfold Plugin.enable, Plugin.notify.
    destruct (Plugin.enabled plugin) eqn:Hon, init as [[]|], running_loop;
      simpl; rewrite ?Hon; split; intuition congruence. }
  unfold PluginManager._enable_non_disabled_plugins,
    PluginManager.enable_all_plugins, PluginManager.enable_plugins.
  rewrite !enable_plugins_lookup by apply NoDup_fst_map_to_list.
  rewrite Hlookup. split.
  - destruct (decide (plugin_name ∈ disabled_plugins)) as [Hdis|Hdis].
    + rewrite decide_False by by intros [_ ?].
      exists plugin. split; [done|]. intuition.
    + rewrite decide_True by done. simpl. eexists. split; [done|].
      rewrite Henable. intuition.
  - rewrite decide_True by (split; [done|apply not_elem_of_nil]).
    simpl. eexists. split; [done|]. apply Henable.
Qed.

Lemma load_enables_only_listed_plugins_witness :
  (∃ plugin1,
     PluginManager.plugins
       (PluginManager._enable_non_disabled_plugins host_with_idle_plugin ["P"]
          (λ _, Returned true) true).1 !! "P" = Some plugin1
     ∧ (Plugin.enabled plugin1 = true
        ↔ false = true ∨ (("P" ∉ ["P"]) ∧ Returned true = Returned true)))
  ∧ (∃ plugin1,
       PluginManager.plugins
         (PluginManager.enable_all_plugins host_with_idle_plugin
            (λ _, Returned true) true).1 !! "P" = Some plugin1
       ∧ (Plugin.enabled plugin1 = true
          ↔ false = true ∨ Returned true = Returned true)).
Proof.
  exact (load_enables_only_listed_plugins host_with_idle_plugin ["P"]
           (λ _, Returned true) true "P" (Plugin.mk 7%N "P" false) eq_refl).
Defined.
